(** * fdstream: a buffered input stream over a file descriptor
      with kernel-side forward skipping

    Shallow embedding of [src/fdstream.cpp] (classes [Fd], [Pipe] and
    [ak::fdbuf], and the free functions [read], [skip], [lseek],
    [splice_pipe_to_null] and [splice_to_null]) together with a small
    executable model of the system calls the program issues.

    Conventions.
    - [size_t] is an unsigned 64-bit integer, [off_t], [ssize_t],
      [std::streamoff] and [std::streamsize] are signed 64-bit integers
      (LP64 Linux, the only platform that has [splice(2)]).  Values are
      in [Z]; every conversion between the two is written out with
      [to_size_t] and [to_off_t].
    - A C++ function that may throw is a computation in the monad [M]:
      it threads the machine state and ends in a value, a thrown
      [std::runtime_error], undefined behaviour, or exhaustion of the
      iteration budget of a [while] loop.
    - Every [while] loop of the source is a [Fixpoint] on a budget
      [fuel]; [OutOfFuel] is returned when the budget is used up.
    - The memory of the model is the arrays the program allocates with
      [new char[]] ([w_heap]) and the calls of [delete[]] it makes
      ([w_freed]).  Storage the C++ runtime obtains for itself, such as
      the [std::stringstream], the message and the exception object of
      a [throw], or a [std::string] temporary, is not represented:
      nothing proved here says that the program leaves the allocator of
      the process alone. *)

From Stdlib Require Import ZArith Lia.
From Stdlib.Strings Require Import Byte.
From stdpp Require Import base option list gmap strings.

Local Open Scope Z_scope.

(** ** Machine integers *)

Definition two64 : Z := 2 ^ 64.
Definition two63 : Z := 2 ^ 63.

(** Conversion to [size_t]: reduction modulo 2^64. *)
Definition to_size_t (z : Z) : Z := z mod two64.

(** Conversion to [off_t] / [ssize_t] / [std::streamoff]: the value
    congruent modulo 2^64 in the signed range. *)
Definition to_off_t (z : Z) : Z := (z + two63) mod two64 - two63.

(** ** File types of [<sys/stat.h>] (Linux values, octal in the header) *)

Definition S_IFMT   : Z := 61440.   (* 0170000 *)
Definition S_IFSOCK : Z := 49152.   (* 0140000 *)
Definition S_IFLNK  : Z := 40960.   (* 0120000 *)
Definition S_IFREG  : Z := 32768.   (* 0100000 *)
Definition S_IFBLK  : Z := 24576.   (* 0060000 *)
Definition S_IFDIR  : Z := 16384.   (* 0040000 *)
Definition S_IFCHR  : Z := 8192.    (* 0020000 *)
Definition S_IFIFO  : Z := 4096.    (* 0010000 *)

(** ** [enum class FdType] *)

Inductive FdType := reg | fifo | other.

(** The classification both constructors of [Fd] apply to [s.st_mode]
    (lines 27-33 and 52-58): an integer is true in a C++ condition when
    it is not zero. *)
Definition classify (st_mode : Z) : FdType :=
  if negb (Z.land st_mode S_IFREG =? 0) then reg
  else if negb (Z.land st_mode S_IFIFO =? 0) then fifo
  else other.

(** ** Errors *)

Inductive errno :=
  E0 | EINTR | EBADF | ENOENT | EINVAL | ESPIPE | EIO | EMFILE | EFAULT.

Definition errno_eqb (a b : errno) : bool :=
  match a, b with
  | E0, E0 | EINTR, EINTR | EBADF, EBADF | ENOENT, ENOENT | EINVAL, EINVAL
  | ESPIPE, ESPIPE | EIO, EIO | EMFILE, EMFILE | EFAULT, EFAULT => true
  | _, _ => false
  end.

(** Every [throw] of the source raises a [std::runtime_error]; one
    constructor per throw site, carrying what the message is built
    from. *)
Inductive exn :=
  | FdStatFailed (fd : Z) (e : errno)             (* line 37 *)
  | OpenFailed (pth : string) (e : errno)         (* line 46 *)
  | PathStatFailed (pth : string) (e : errno)     (* line 63 *)
  | PipeFailed (e : errno)                        (* line 106 *)
  | ReadError (e : errno)                         (* line 134 *)
  | SeekError (e : errno)                         (* line 162 *)
  | SplicePipeToNullFailed (e : errno)            (* line 179 *)
  | SpliceWriteFailed (e : errno)                 (* line 204 *)
  | SplicePrematureZero (expected : Z)            (* line 210 *)
  | Splice1Failed (e : errno).                    (* line 214 *)

(** Undefined behaviour the memory model detects. *)
Inductive ub := UseAfterFree | OutOfBounds | DoubleFree.

Inductive outcome (A : Type) :=
  | Ok (a : A)
  | Throw (e : exn)
  | Undefined (u : ub)
  | OutOfFuel.
Arguments Ok {A} a.
Arguments Throw {A} e.
Arguments Undefined {A} u.
Arguments OutOfFuel {A}.

(** ** The monad of computations over a state [S] *)

Definition M (S A : Type) : Type := S -> outcome A * S.

Definition ret {S A} (a : A) : M S A := fun s => (Ok a, s).

Definition bind {S A B} (m : M S A) (k : A -> M S B) : M S B :=
  fun s =>
    match m s with
    | (Ok a, s') => k a s'
    | (Throw e, s') => (Throw e, s')
    | (Undefined u, s') => (Undefined u, s')
    | (OutOfFuel, s') => (OutOfFuel, s')
    end.

(** [throw std::runtime_error{msg.str()}]: the arrays of the program
    and the kernel objects are as they were; the message and the
    exception object live in storage of the runtime, outside the
    state. *)
Definition throw {S A} (e : exn) : M S A := fun s => (Throw e, s).
Definition undefined {S A} (u : ub) : M S A := fun s => (Undefined u, s).
Definition out_of_fuel {S A} : M S A := fun s => (OutOfFuel, s).
Definition gets {S A} (f : S -> A) : M S A := fun s => (Ok (f s), s).
Definition modify {S} (f : S -> S) : M S unit := fun s => (Ok tt, f s).

(** [m] inside a [try] whose handler swallows the exception, then [k]:
    [k] runs in the state [m] left, whatever the outcome of [m]. *)
Definition try_then {S A B} (m : M S A) (k : M S B) : M S B :=
  fun s => k (snd (m s)).

Declare Scope cxx_scope.
Delimit Scope cxx_scope with cxx.
Notation "x <- m ;; k" := (bind m (fun x => k))
  (at level 100, m at next level, right associativity) : cxx_scope.
Notation "m ;;; k" := (bind m (fun _ => k))
  (at level 100, right associativity) : cxx_scope.
Local Open Scope cxx_scope.

(** ** Objects of the program *)

(** [class Fd]: the descriptor, its kind and the ownership flag. *)
Module Fd.
Record t := mk { fd : Z; type : FdType; owned : bool }.
End Fd.

(** [class Pipe]: the two ends returned by [pipe(2)]. *)
Module Pipe.
Record t := mk { read : Z; write : Z }.
End Pipe.

(** A pointer into a [char] array: the block and the offset in it. *)
Record ptr := mkptr { blk : nat; off : Z }.

Definition ptr_eqb (p q : ptr) : bool :=
  Nat.eqb (blk p) (blk q) && (off p =? off q).

Definition ptr_add (p : ptr) (n : Z) : ptr := mkptr (blk p) (off p + n).

(** Pointer difference [p - q]. *)
Definition ptr_diff (p q : ptr) : Z := off p - off q.

(** A heap block: its bytes and whether it is still allocated. *)
Record block := mkblock { b_bytes : list byte; b_live : bool }.

(** ** The environment: kernel objects, the arrays of the program,
       thread-local statics *)

(** What a descriptor refers to.  [EData mode data pos] is anything
    bytes are read from (regular file, read end of a FIFO whose writer
    has closed, socket, device): [mode] is its [st_mode], [data] every
    byte it will deliver before end-of-input and [pos] how many were
    consumed.  [ENull] is the null device.  [EPipeR p] and [EPipeW p]
    are the two ends of the kernel pipe [p]. *)
Inductive endpoint :=
  | EData (mode : Z) (data : list byte) (pos : Z)
  | ENull
  | EPipeR (p : Z)
  | EPipeW (p : Z).

(** What the environment does to the next system call: let it proceed,
    let a transfer move at most [k] bytes (at least one when bytes are
    there), or make the call fail with an [errno]. *)
Inductive fault :=
  | Proceed
  | Short (k : Z)
  | Fail (e : errno).

Record World := mkWorld {
  w_fs     : gmap string endpoint;   (* what a path opens *)
  w_fds    : gmap Z endpoint;        (* open descriptors *)
  w_next   : N;                      (* next descriptor id *)
  w_pipes  : gmap Z (list byte);     (* bytes in flight in each pipe *)
  w_errno  : errno;
  w_oracle : list fault;             (* one entry per system call *)
  w_closed : list Z;                 (* every close(2) call, latest first *)
  w_heap   : list block;             (* the arrays of new char[]: block [b]
                                        is [w_heap !! b] *)
  w_freed  : list nat;               (* every delete[], latest first *)
  (* thread_local statics; [None] before their first initialisation *)
  tl_fifo_dev_null  : option Fd.t;   (* splice_pipe_to_null::dev_null *)
  tl_other_dev_null : option Fd.t;   (* splice_to_null::dev_null *)
  tl_other_p        : option Pipe.t; (* splice_to_null::p *)
  (* what the program does not choose *)
  w_garbage  : nat -> nat -> byte;   (* byte [i] of block [b] when allocated *)
  w_maxbytes : Z                     (* largest file offset of the file system *)
}.

Definition set_fds (f : gmap Z endpoint) (w : World) : World :=
  mkWorld (w_fs w) f (w_next w) (w_pipes w) (w_errno w) (w_oracle w)
    (w_closed w) (w_heap w) (w_freed w)
    (tl_fifo_dev_null w) (tl_other_dev_null w) (tl_other_p w)
    (w_garbage w) (w_maxbytes w).
Definition set_next (n : N) (w : World) : World :=
  mkWorld (w_fs w) (w_fds w) n (w_pipes w) (w_errno w) (w_oracle w)
    (w_closed w) (w_heap w) (w_freed w)
    (tl_fifo_dev_null w) (tl_other_dev_null w) (tl_other_p w)
    (w_garbage w) (w_maxbytes w).
Definition set_pipes (p : gmap Z (list byte)) (w : World) : World :=
  mkWorld (w_fs w) (w_fds w) (w_next w) p (w_errno w) (w_oracle w)
    (w_closed w) (w_heap w) (w_freed w)
    (tl_fifo_dev_null w) (tl_other_dev_null w) (tl_other_p w)
    (w_garbage w) (w_maxbytes w).
Definition set_errno (e : errno) (w : World) : World :=
  mkWorld (w_fs w) (w_fds w) (w_next w) (w_pipes w) e (w_oracle w)
    (w_closed w) (w_heap w) (w_freed w)
    (tl_fifo_dev_null w) (tl_other_dev_null w) (tl_other_p w)
    (w_garbage w) (w_maxbytes w).
Definition set_oracle (o : list fault) (w : World) : World :=
  mkWorld (w_fs w) (w_fds w) (w_next w) (w_pipes w) (w_errno w) o
    (w_closed w) (w_heap w) (w_freed w)
    (tl_fifo_dev_null w) (tl_other_dev_null w) (tl_other_p w)
    (w_garbage w) (w_maxbytes w).
Definition set_closed (c : list Z) (w : World) : World :=
  mkWorld (w_fs w) (w_fds w) (w_next w) (w_pipes w) (w_errno w) (w_oracle w)
    c (w_heap w) (w_freed w)
    (tl_fifo_dev_null w) (tl_other_dev_null w) (tl_other_p w)
    (w_garbage w) (w_maxbytes w).
Definition set_heap (h : list block) (w : World) : World :=
  mkWorld (w_fs w) (w_fds w) (w_next w) (w_pipes w) (w_errno w) (w_oracle w)
    (w_closed w) h (w_freed w)
    (tl_fifo_dev_null w) (tl_other_dev_null w) (tl_other_p w)
    (w_garbage w) (w_maxbytes w).
Definition set_freed (f : list nat) (w : World) : World :=
  mkWorld (w_fs w) (w_fds w) (w_next w) (w_pipes w) (w_errno w) (w_oracle w)
    (w_closed w) (w_heap w) f
    (tl_fifo_dev_null w) (tl_other_dev_null w) (tl_other_p w)
    (w_garbage w) (w_maxbytes w).
Definition set_tl_fifo_dev_null (d : option Fd.t) (w : World) : World :=
  mkWorld (w_fs w) (w_fds w) (w_next w) (w_pipes w) (w_errno w) (w_oracle w)
    (w_closed w) (w_heap w) (w_freed w)
    d (tl_other_dev_null w) (tl_other_p w)
    (w_garbage w) (w_maxbytes w).
Definition set_tl_other_dev_null (d : option Fd.t) (w : World) : World :=
  mkWorld (w_fs w) (w_fds w) (w_next w) (w_pipes w) (w_errno w) (w_oracle w)
    (w_closed w) (w_heap w) (w_freed w)
    (tl_fifo_dev_null w) d (tl_other_p w)
    (w_garbage w) (w_maxbytes w).
Definition set_tl_other_p (p : option Pipe.t) (w : World) : World :=
  mkWorld (w_fs w) (w_fds w) (w_next w) (w_pipes w) (w_errno w) (w_oracle w)
    (w_closed w) (w_heap w) (w_freed w)
    (tl_fifo_dev_null w) (tl_other_dev_null w) p
    (w_garbage w) (w_maxbytes w).

(** ** The arrays of the program: [new char[n]], [delete[]], loads
       and stores *)

(** What [new char[n]] finds in the block it hands out: the array is
    default-initialised, so its bytes are whatever the environment left
    there. *)
Definition fresh_bytes (w : World) (n : Z) : list byte :=
  map (w_garbage w (length (w_heap w))) (seq 0 (Z.to_nat n)).

(** [new char[n]]. *)
Definition heap_alloc (n : Z) : M World ptr := fun w =>
  (Ok (mkptr (length (w_heap w)) 0),
   set_heap (w_heap w ++ [mkblock (fresh_bytes w n) true]) w).

(** [delete[] p].  Every call is logged, defined or not. *)
Definition heap_free (p : ptr) : M World unit := fun w =>
  let w := set_freed (blk p :: w_freed w) w in
  match w_heap w !! blk p with
  | None => (Undefined OutOfBounds, w)
  | Some b =>
      if negb (b_live b) then (Undefined DoubleFree, w)
      else (Ok tt, set_heap (<[blk p := mkblock (b_bytes b) false]> (w_heap w)) w)
  end.

(** Read [n] bytes at [p].  No byte is touched when [n = 0]. *)
Definition heap_load (p : ptr) (n : Z) : M World (list byte) := fun w =>
  if n <=? 0 then (Ok [], w) else
  match w_heap w !! blk p with
  | None => (Undefined OutOfBounds, w)
  | Some b =>
      if negb (b_live b) then (Undefined UseAfterFree, w)
      else if (off p <? 0) || (Z.of_nat (length (b_bytes b)) <? off p + n)
      then (Undefined OutOfBounds, w)
      else (Ok (take (Z.to_nat n) (drop (Z.to_nat (off p)) (b_bytes b))), w)
  end.

(** Write [bs] at [p].  No byte is touched when [bs] is empty. *)
Definition heap_store (p : ptr) (bs : list byte) : M World unit := fun w =>
  match bs with
  | [] => (Ok tt, w)
  | _ =>
    match w_heap w !! blk p with
    | None => (Undefined OutOfBounds, w)
    | Some b =>
        if negb (b_live b) then (Undefined UseAfterFree, w)
        else if (off p <? 0)
                || (Z.of_nat (length (b_bytes b)) <? off p + Z.of_nat (length bs))
        then (Undefined OutOfBounds, w)
        else
          let o := Z.to_nat (off p) in
          let bytes := take o (b_bytes b) ++ bs ++ drop (o + length bs) (b_bytes b) in
          (Ok tt, set_heap (<[blk p := mkblock bytes true]> (w_heap w)) w)
    end
  end.

(** ** System calls

    A call returns what the C function returns ([-1] on failure, with
    [errno] set).  Each call except [close] first takes the next entry
    of the oracle; an empty oracle lets every call proceed. *)

Definition next_fault : M World fault := fun w =>
  match w_oracle w with
  | [] => (Ok Proceed, w)
  | f :: rest => (Ok f, set_oracle rest w)
  end.

Definition fail_with {A} (e : errno) (r : A) : M World A := fun w =>
  (Ok r, set_errno e w).

Definition endpoint_mode (ep : endpoint) : Z :=
  match ep with
  | EData mode _ _ => mode
  | ENull => Z.lor S_IFCHR 438          (* crw-rw-rw- *)
  | EPipeR _ | EPipeW _ => Z.lor S_IFIFO 384
  end.

(** Bytes a source still holds. *)
Definition avail (data : list byte) (pos : Z) : Z :=
  Z.max 0 (Z.of_nat (length data) - pos).

(** How many bytes a transfer of at most [len] bytes moves when [have]
    bytes are there. *)
Definition moved (f : fault) (len have : Z) : Z :=
  let k := Z.min len have in
  match f with
  | Short s => Z.min k (Z.max 1 s)
  | _ => k
  end.

Definition slice (data : list byte) (pos k : Z) : list byte :=
  take (Z.to_nat k) (drop (Z.to_nat pos) data).

(** [fstat(fd, &s)]: the return value and [s.st_mode]. *)
Definition sys_fstat (d : Z) : M World (Z * Z) :=
  f <- next_fault ;;
  match f with
  | Fail e => fail_with e (-1, 0)
  | _ =>
      fds <- gets w_fds ;;
      match fds !! d with
      | None => fail_with EBADF (-1, 0)
      | Some ep => ret (0, endpoint_mode ep)
      end
  end.

(** [open(pth, flags)]: a new descriptor for what [pth] names.  The
    model does not interpret [flags]. *)
Definition sys_open (pth : string) (flags : Z) : M World Z :=
  f <- next_fault ;;
  match f with
  | Fail e => fail_with e (-1)
  | _ =>
      fs <- gets w_fs ;;
      match fs !! pth with
      | None => fail_with ENOENT (-1)
      | Some ep =>
          n <- gets w_next ;;
          let d := Z.of_N n in
          modify (fun w => set_next (n + 1) (set_fds (<[d := ep]> (w_fds w)) w)) ;;;
          ret d
      end
  end.

(** [close(fd)].  Every call is logged, successful or not. *)
Definition sys_close (d : Z) : M World Z :=
  modify (fun w => set_closed (d :: w_closed w) w) ;;;
  fds <- gets w_fds ;;
  match fds !! d with
  | None => fail_with EBADF (-1)
  | Some _ => modify (fun w => set_fds (delete d (w_fds w)) w) ;;; ret 0
  end.

(** [pipe(pipefd)]: the return value, [pipefd[0]] and [pipefd[1]]. *)
Definition sys_pipe : M World (Z * (Z * Z)) :=
  f <- next_fault ;;
  match f with
  | Fail e => fail_with e (-1, (0, 0))
  | _ =>
      n <- gets w_next ;;
      let d := Z.of_N n in
      modify (fun w =>
        set_next (n + 2)
          (set_pipes (<[d := []]> (w_pipes w))
             (set_fds (<[d + 1 := EPipeW d]> (<[d := EPipeR d]> (w_fds w))) w))) ;;;
      ret (0, (d, d + 1))
  end.

(** [read(fd, buf, count)]: the bytes go to the heap at [buf].  A
    [count] above [SSIZE_MAX] describes a range that lies in no address
    space: the call fails with [EFAULT]. *)
Definition sys_read (d : Z) (buf : ptr) (count : Z) : M World Z :=
  f <- next_fault ;;
  match f with
  | Fail e => fail_with e (-1)
  | _ =>
      fds <- gets w_fds ;;
      match fds !! d with
      | Some (EPipeW _) | None => fail_with EBADF (-1)
      | Some ep =>
          if two63 <=? count then fail_with EFAULT (-1)
          else
            match ep with
            | EData mode data pos =>
                let k := moved f count (avail data pos) in
                heap_store buf (slice data pos k) ;;;
                modify (fun w =>
                  set_fds (<[d := EData mode data (pos + k)]> (w_fds w)) w) ;;;
                ret k
            | EPipeR p =>
                pipes <- gets w_pipes ;;
                let q := default [] (pipes !! p) in
                let k := moved f count (Z.of_nat (length q)) in
                heap_store buf (slice q 0 k) ;;;
                modify (fun w =>
                  set_pipes (<[p := drop (Z.to_nat k) q]> (w_pipes w)) w) ;;;
                ret k
            | ENull => ret 0
            | EPipeW _ => fail_with EBADF (-1)
            end
      end
  end.

Inductive whence := SEEK_SET | SEEK_CUR | SEEK_END.

(** Which file types [lseek] accepts. *)
Definition seekable (mode : Z) : bool :=
  (Z.land mode S_IFMT =? S_IFREG) || (Z.land mode S_IFMT =? S_IFBLK).

(** The largest offset [lseek] accepts: that of the file system, and
    in any case one an [off_t] holds. *)
Definition max_offset (w : World) : Z := Z.min (w_maxbytes w) (two63 - 1).

(** [lseek(fd, offset, whence)]: the new offset, or [-1].  A target
    below 0 or above the largest offset fails with [EINVAL]. *)
Definition sys_lseek (d : Z) (offset : Z) (wh : whence) : M World Z :=
  f <- next_fault ;;
  match f with
  | Fail e => fail_with e (-1)
  | _ =>
      fds <- gets w_fds ;;
      limit <- gets max_offset ;;
      match fds !! d with
      | Some (EData mode data pos) =>
          if seekable mode then
            let target :=
              match wh with
              | SEEK_SET => offset
              | SEEK_CUR => pos + offset
              | SEEK_END => Z.of_nat (length data) + offset
              end in
            if (target <? 0) || (limit <? target) then fail_with EINVAL (-1)
            else
              modify (fun w => set_fds (<[d := EData mode data target]> (w_fds w)) w) ;;;
              ret target
          else fail_with ESPIPE (-1)
      | Some ENull => ret 0
      | Some (EPipeR _) | Some (EPipeW _) => fail_with ESPIPE (-1)
      | None => fail_with EBADF (-1)
      end
  end.

(** [splice(fd_in, NULL, fd_out, NULL, len, 0)]: moves bytes inside the
    kernel; one of the two descriptors must be a pipe.  The bytes moved
    into the null device are gone.  A [len] above [SSIZE_MAX] fails
    with [EINVAL], as it does when neither descriptor is a pipe. *)
Definition sys_splice (d_in d_out : Z) (len : Z) : M World Z :=
  f <- next_fault ;;
  match f with
  | Fail e => fail_with e (-1)
  | _ =>
      fds <- gets w_fds ;;
      match fds !! d_in, fds !! d_out with
      | Some ep_in, Some ep_out =>
          if two63 <=? len then fail_with EINVAL (-1)
          else
            match ep_in, ep_out with
            | EData mode data pos, EPipeW p =>
                let k := moved f len (avail data pos) in
                modify (fun w =>
                  set_pipes
                    (<[p := default [] (w_pipes w !! p) ++ slice data pos k]> (w_pipes w))
                    (set_fds (<[d_in := EData mode data (pos + k)]> (w_fds w)) w)) ;;;
                ret k
            | EData mode data pos, ENull =>
                if Z.land mode S_IFMT =? S_IFIFO then
                  let k := moved f len (avail data pos) in
                  modify (fun w =>
                    set_fds (<[d_in := EData mode data (pos + k)]> (w_fds w)) w) ;;;
                  ret k
                else fail_with EINVAL (-1)
            | EPipeR p, ENull =>
                pipes <- gets w_pipes ;;
                let q := default [] (pipes !! p) in
                let k := moved f len (Z.of_nat (length q)) in
                modify (fun w =>
                  set_pipes (<[p := drop (Z.to_nat k) q]> (w_pipes w)) w) ;;;
                ret k
            | _, _ => fail_with EINVAL (-1)
            end
      | _, _ => fail_with EBADF (-1)
      end
  end.

Definition errno_now : M World errno := gets w_errno.

(** ** [class Fd] and [class Pipe] *)

Definition O_RDONLY : Z := 0.
Definition O_WRONLY : Z := 1.

(** [Fd(int _fd)], lines 24-39: borrows the descriptor. *)
Definition Fd_of_fd (_fd : Z) : M World Fd.t :=
  st <- sys_fstat _fd ;;
  let '(r, st_mode) := st in
  if negb (r =? -1) then ret (Fd.mk _fd (classify st_mode) false)
  else e <- errno_now ;; throw (FdStatFailed _fd e).

(** The loop of lines 42-48.  [fuel] bounds how often the body is
    re-entered. *)
Fixpoint open_retry (fuel : nat) (pth : string) (flags : Z) : M World Z :=
  d <- sys_open pth flags ;;
  if d =? -1 then
    e <- errno_now ;;
    if negb (errno_eqb e EINTR) then throw (OpenFailed pth e)
    else match fuel with
         | O => out_of_fuel
         | S fuel' => open_retry fuel' pth flags
         end
  else ret d.

(** [Fd(const std::string& pth, int flags)], lines 41-65: owns the
    descriptor.  When the constructor throws no object exists, so no
    destructor runs for it. *)
Definition Fd_of_path (fuel : nat) (pth : string) (flags : Z) : M World Fd.t :=
  d <- open_retry fuel pth flags ;;
  st <- sys_fstat d ;;
  let '(r, st_mode) := st in
  if negb (r =? -1) then ret (Fd.mk d (classify st_mode) true)
  else
    sys_close d ;;;
    e <- errno_now ;;
    throw (PathStatFailed pth e).

(** [~Fd()], lines 73-77. *)
Definition Fd_dtor (h : Fd.t) : M World unit :=
  if Fd.owned h then sys_close (Fd.fd h) ;;; ret tt else ret tt.

(** [Pipe()], lines 96-108. *)
Definition Pipe_new : M World Pipe.t :=
  pp <- sys_pipe ;;
  let '(r, (p0, p1)) := pp in
  if negb (r =? -1) then ret (Pipe.mk p0 p1)
  else e <- errno_now ;; throw (PipeFailed e).

(** ** The free functions on [Fd] *)

(** The loop of [read], lines 130-136. *)
Fixpoint read_retry (fuel : nat) (h : Fd.t) (buf : ptr) (count : Z) : M World Z :=
  n <- sys_read (Fd.fd h) buf count ;;
  if n =? -1 then
    e <- errno_now ;;
    if negb (errno_eqb e EINTR) then throw (ReadError e)
    else match fuel with
         | O => out_of_fuel
         | S fuel' => read_retry fuel' h buf count
         end
  else ret n.

(** [size_t read(Fd&, void*, size_t)], lines 128-138. *)
Definition read (fuel : nat) (h : Fd.t) (buf : ptr) (count : Z) : M World Z :=
  n <- read_retry fuel h buf count ;;
  ret (to_size_t n).

(** [void lseek(Fd&, off_t, int)], lines 154-164. *)
Definition lseek (h : Fd.t) (offset : Z) (wh : whence) : M World unit :=
  o <- sys_lseek (Fd.fd h) offset wh ;;
  if negb (o =? -1) then ret tt
  else e <- errno_now ;; throw (SeekError e).

(** A function-local [thread_local] object: built on the first call
    that reaches its declaration, kept afterwards.  When the constructor
    throws the object stays unbuilt. *)
Definition thread_local {A} (get : World -> option A)
    (set : option A -> World -> World) (init : M World A) : M World A :=
  cur <- gets get ;;
  match cur with
  | Some a => ret a
  | None => a <- init ;; modify (set (Some a)) ;;; ret a
  end.

(** The loop of [splice_pipe_to_null], lines 171-181. *)
Fixpoint splice_pipe_to_null_loop (fuel : nat) (h dev_null : Fd.t) (n : Z)
    : M World unit :=
  if 0 <? n then
    rd <- sys_splice (Fd.fd h) (Fd.fd dev_null) n ;;
    if negb (rd =? -1) then
      match fuel with
      | O => out_of_fuel
      | S fuel' => splice_pipe_to_null_loop fuel' h dev_null (to_size_t (n - rd))
      end
    else e <- errno_now ;; throw (SplicePipeToNullFailed e)
  else ret tt.

(** [void splice_pipe_to_null(Fd&, size_t)], lines 168-182. *)
Definition splice_pipe_to_null (fuel : nat) (h : Fd.t) (n : Z) : M World unit :=
  dev_null <- thread_local tl_fifo_dev_null set_tl_fifo_dev_null
                (Fd_of_path fuel "/dev/null" O_WRONLY) ;;
  splice_pipe_to_null_loop fuel h dev_null n.

(** [void splice_to_null(Fd&, size_t)], lines 189-217.  Every path
    through the body of its [while] leaves the loop, by [break] (line
    200) or by [throw], so the body runs at most once and the loop is
    not recursive.  The [n -= read] of line 199 assigns a local that is
    not read again. *)
Definition splice_to_null (fuel : nat) (h : Fd.t) (n : Z) : M World unit :=
  dev_null <- thread_local tl_other_dev_null set_tl_other_dev_null
                (Fd_of_path fuel "/dev/null" O_WRONLY) ;;
  p <- thread_local tl_other_p set_tl_other_p Pipe_new ;;
  if 0 <? n then
    rd <- sys_splice (Fd.fd h) (Pipe.write p) n ;;
    if 0 <? rd then
      written <- sys_splice (Pipe.read p) (Fd.fd dev_null) rd ;;
      if negb (written =? -1) then ret tt
      else e <- errno_now ;; throw (SpliceWriteFailed e)
    else if rd =? 0 then throw (SplicePrematureZero n)
    else e <- errno_now ;; throw (Splice1Failed e)
  else ret tt.

(** [void skip(Fd&, size_t)], lines 140-152.  The call of line 143
    converts [n] from [size_t] to [off_t]. *)
Definition skip (fuel : nat) (h : Fd.t) (n : Z) : M World unit :=
  match Fd.type h with
  | reg => lseek h (to_off_t n) SEEK_CUR
  | fifo => splice_pipe_to_null fuel h n
  | other => splice_to_null fuel h n
  end.

(** ** [class ak::fdbuf] *)

Definition default_bufsize : Z := Z.shiftl 1 13.

(** The get area of the [std::streambuf] base ([eback], [gptr],
    [egptr]) followed by the members of lines 304-307. *)
Module fdbuf.
Record t := mk {
  eback : ptr; gptr : ptr; egptr : ptr;
  fd : Fd.t;
  buf : ptr;
  capacity : Z;
  owned : bool
}.
End fdbuf.

(** A stream object in its environment. *)
Definition Obj : Type := fdbuf.t * World.

Definition this : M Obj fdbuf.t := gets fst.

Definition liftW {A} (m : M World A) : M Obj A := fun s =>
  let (r, w') := m (snd s) in (r, (fst s, w')).

(** [std::streambuf::setg]. *)
Definition setg (gbeg gnext gend : ptr) : M Obj unit :=
  modify (fun s : Obj =>
    let sb := fst s in
    (fdbuf.mk gbeg gnext gend (fdbuf.fd sb) (fdbuf.buf sb)
       (fdbuf.capacity sb) (fdbuf.owned sb), snd s)).

(** Member initialisers of lines 304-307 and the constructor body. *)
Definition fdbuf_init (h : Fd.t) : M World fdbuf.t :=
  b <- heap_alloc default_bufsize ;;
  ret (fdbuf.mk b b b h b default_bufsize true).

(** [fdbuf(const std::string& pth)], lines 223-225; [Fd(pth)] is
    [Fd(pth, O_RDONLY)] (line 67). *)
Definition fdbuf_of_path (fuel : nat) (pth : string) : M World fdbuf.t :=
  h <- Fd_of_path fuel pth O_RDONLY ;;
  fdbuf_init h.

(** [fdbuf(int _fd)], lines 227-229. *)
Definition fdbuf_of_fd (_fd : Z) : M World fdbuf.t :=
  h <- Fd_of_fd _fd ;;
  fdbuf_init h.

(** [~fdbuf()], lines 234-238, then the destructor of the member [fd]. *)
Definition fdbuf_dtor (sb : fdbuf.t) : M World unit :=
  (if fdbuf.owned sb then heap_free (fdbuf.buf sb) else ret tt) ;;;
  Fd_dtor (fdbuf.fd sb).

Definition eof : Z := -1.

(** [std::char_traits<char>::to_int_type]. *)
Definition to_int_type (b : byte) : Z := Z.of_N (Byte.to_N b).

(** [int underflow()], lines 280-289. *)
Definition underflow (fuel : nat) : M Obj Z :=
  sb <- this ;;
  (if ptr_eqb (fdbuf.gptr sb) (fdbuf.egptr sb) then
     n <- liftW (read fuel (fdbuf.fd sb) (fdbuf.buf sb) (fdbuf.capacity sb)) ;;
     setg (fdbuf.buf sb) (fdbuf.buf sb) (ptr_add (fdbuf.buf sb) n)
   else ret tt) ;;;
  sb <- this ;;
  if ptr_eqb (fdbuf.gptr sb) (fdbuf.egptr sb) then ret eof
  else
    c <- liftW (heap_load (fdbuf.gptr sb) 1) ;;
    ret (to_int_type (default x00 (head c))).

(** The loop of [xsgetn], lines 246-260.  The destination [s] is the
    list of the bytes copied so far; [s += amt] appends. *)
Fixpoint xsgetn_loop (fuel loop_fuel : nat) (n rem : Z) (s : list byte)
    : M Obj (Z * list byte) :=
  if 0 <? rem then
    sb <- this ;;
    at_eof <- (if ptr_eqb (fdbuf.gptr sb) (fdbuf.egptr sb) then
                 c <- underflow fuel ;; ret (c =? eof)
               else ret false) ;;
    if at_eof : bool then ret (n - rem, s)
    else
      sb <- this ;;
      let avail := ptr_diff (fdbuf.egptr sb) (fdbuf.gptr sb) in
      let amt := Z.min rem avail in
      bs <- liftW (heap_load (fdbuf.gptr sb) amt) ;;
      setg (fdbuf.eback sb) (ptr_add (fdbuf.gptr sb) amt) (fdbuf.egptr sb) ;;;
      match loop_fuel with
      | O => out_of_fuel
      | S loop_fuel' => xsgetn_loop fuel loop_fuel' n (rem - amt) (s ++ bs)
      end
  else ret (n - rem, s).

(** [std::streamsize xsgetn(char* s, std::streamsize n)], lines
    243-263: the return value and the bytes written to [s]. *)
Definition xsgetn (fuel : nat) (n : Z) : M Obj (Z * list byte) :=
  xsgetn_loop fuel fuel n n [].

Inductive seekdir := beg | cur | end_.

Definition seekdir_eqb (a b : seekdir) : bool :=
  match a, b with
  | beg, beg | cur, cur | end_, end_ => true
  | _, _ => false
  end.

(** [std::ios::openmode] is a bitmask; the values of libstdc++. *)
Definition ios_in : Z := 8.
Definition ios_out : Z := 16.

(** [std::streambuf::seekoff], the base class version the override
    falls back to: it does nothing and returns [pos_type(off_type(-1))]. *)
Definition streambuf_seekoff (off : Z) (way : seekdir) (which : Z) : M Obj Z :=
  ret (-1).

(** [std::streampos seekoff(off, way, which)], lines 264-278.  The
    argument of [skip] is [off - buffered] converted to [size_t]. *)
Definition seekoff (fuel : nat) (off : Z) (way : seekdir) (which : Z) : M Obj Z :=
  if (which =? ios_out) || negb (seekdir_eqb way cur) then
    streambuf_seekoff off way which
  else
    sb <- this ;;
    let end' := fdbuf.egptr sb in
    let buffered := ptr_diff end' (fdbuf.gptr sb) in
    setg (fdbuf.eback sb) end' end' ;;;
    liftW (skip fuel (fdbuf.fd sb) (to_size_t (off - buffered))) ;;;
    sb <- this ;;
    ret (ptr_diff (fdbuf.gptr sb) (fdbuf.eback sb)).

(** [std::streambuf* setbuf(char* s, std::streamsize n)], lines
    291-301.  The get area is not assigned. *)
Definition setbuf (s : ptr) (n : Z) : M Obj unit :=
  sb <- this ;;
  (if fdbuf.owned sb then liftW (heap_free (fdbuf.buf sb)) else ret tt) ;;;
  modify (fun st : Obj =>
    let sb := fst st in
    (fdbuf.mk (fdbuf.eback sb) (fdbuf.gptr sb) (fdbuf.egptr sb) (fdbuf.fd sb)
       s (to_size_t n) false, snd st)).

(** ** The operations of the stream a caller sees

    [std::istream::seekg(count, std::ios::cur)] and [tellg()] forward to
    [seekoff(count, cur, in)] and [seekoff(0, cur, in)];
    [std::istream::read(buf, k)] forwards to [xsgetn(buf, k)]. *)

Definition skipForward (fuel : nat) (count : Z) : M Obj Z :=
  seekoff fuel count cur ios_in.

Definition stream_read (fuel : nat) (k : Z) : M Obj (Z * list byte) :=
  xsgetn fuel k.

(** Construct a stream in [w] and run [body] on it; [None] when the
    constructor does not return. *)
Definition with_stream {A} (ctor : M World fdbuf.t) (body : M Obj A) (w : World)
    : option (outcome A * Obj) :=
  match ctor w with
  | (Ok sb, w1) => Some (body (sb, w1))
  | _ => None
  end.

(** The outcome of a run, and an observation of the state it ends in. *)
Definition result {A} (r : option (outcome A * Obj)) : option (outcome A) :=
  option_map fst r.
Definition final {A B} (f : Obj -> B) (r : option (outcome A * Obj)) : option B :=
  option_map (fun x => f (snd x)) r.

(** ** Observations *)

(** How many bytes of the source behind descriptor [d] the kernel has
    handed out: the file offset of a regular file. *)
Definition fd_pos (w : World) (d : Z) : option Z :=
  match w_fds w !! d with
  | Some (EData _ _ pos) => Some pos
  | _ => None
  end.

(** The position of the stream: the offset in the source of the byte
    the next read returns, that is the kernel offset less the bytes
    that are buffered and unread. *)
Definition stream_pos (s : Obj) : option Z :=
  match fd_pos (snd s) (Fd.fd (fdbuf.fd (fst s))) with
  | Some pos => Some (pos - ptr_diff (fdbuf.egptr (fst s)) (fdbuf.gptr (fst s)))
  | None => None
  end.

(** How often [close(d)] was called. *)
Definition closes (d : Z) (w : World) : nat :=
  length (filter (fun x => x = d) (w_closed w)).

(** How often block [b] was released with [delete[]]. *)
Definition frees (b : nat) (w : World) : nat :=
  length (filter (fun x => x = b) (w_freed w)).

(** Every open descriptor was handed out by the descriptor counter. *)
Definition wf_world (w : World) : Prop :=
  forall d, is_Some (w_fds w !! d) -> d < Z.of_N (w_next w).

(** [w'] has the descriptors of [w]: the same ones open, the same
    calls of [close] made, the same counter. *)
Definition same_descriptors (w w' : World) : Prop :=
  w_fds w' = w_fds w /\ w_closed w' = w_closed w /\ w_next w' = w_next w.

(** Descriptor [d] is open, was handed out by the counter, and
    [close(d)] was called [c] times so far. *)
Definition held (d : Z) (c : nat) (w : World) : Prop :=
  closes d w = c /\ is_Some (w_fds w !! d) /\ d < Z.of_N (w_next w).

(** [m] keeps the property [P] of the world, whatever its outcome, and
    what it returns from a world with [P] satisfies [Q]. *)
Definition keeps {A} (P : World -> Prop) (m : M World A) (Q : A -> Prop) : Prop :=
  forall w, P w -> P (snd (m w)) /\ forall a, fst (m w) = Ok a -> Q a.

(** ** Operations on a handle between construction and destruction *)

Inductive op :=
  | OpRead (buf : ptr) (count : Z)
  | OpLseek (offset : Z) (wh : whence)
  | OpSkip (n : Z).

Definition run_op (fuel : nat) (h : Fd.t) (o : op) : M World unit :=
  match o with
  | OpRead buf count => read fuel h buf count ;;; ret tt
  | OpLseek offset wh => lseek h offset wh
  | OpSkip n => skip fuel h n
  end.

(** The caller goes on after an operation whatever its outcome. *)
Fixpoint run_ops (fuel : nat) (h : Fd.t) (ops : list op) (w : World) : World :=
  match ops with
  | [] => w
  | o :: rest => run_ops fuel h rest (snd (run_op fuel h o w))
  end.

(** ** Environments of the scenarios *)

(** The byte at offset [i] of the sources of the scenarios; the
    pattern has period 251, so no offset below is confused with
    another. *)
Definition nth_byte (i : Z) : byte :=
  default x00 (Byte.of_N (Z.to_N (i mod 251))).

(** The [n] bytes at offsets [i], [i + 1], ... *)
Fixpoint bytes_from (i : Z) (n : nat) : list byte :=
  match n with
  | O => []
  | S n' => nth_byte i :: bytes_from (i + 1) n'
  end.

(** A process with the source [ep] open as descriptor 3, the null
    device at its path, an empty heap and the oracle [o]. *)
Definition world_with (ep : endpoint) (o : list fault) : World :=
  mkWorld {[ "/dev/null"%string := ENull ]} {[ 3 := ep ]} 4%N ∅ E0 o [] [] []
    None None None (fun _ _ => "252"%byte) (two63 - 1).

(** Sources of [n] bytes of the four kinds the scenarios use. *)
Definition regular_file (n : Z) : endpoint :=
  EData (Z.lor S_IFREG 420) (bytes_from 0 (Z.to_nat n)) 0.
Definition fifo_end (n : Z) : endpoint :=
  EData (Z.lor S_IFIFO 384) (bytes_from 0 (Z.to_nat n)) 0.
Definition char_device (n : Z) : endpoint :=
  EData (Z.lor S_IFCHR 384) (bytes_from 0 (Z.to_nat n)) 0.
Definition socket (n : Z) : endpoint :=
  EData (Z.lor S_IFSOCK 511) (bytes_from 0 (Z.to_nat n)) 0.

(** Construct a borrowing handle on descriptor 3 and run [body] on it. *)
Definition on_handle {A} (body : Fd.t -> M World A) : M World A :=
  h <- Fd_of_fd 3 ;; body h.

(** The stream object with its unread window given up: what line 274
    leaves. *)
Definition drop_window (sb : fdbuf.t) : fdbuf.t :=
  fdbuf.mk (fdbuf.eback sb) (fdbuf.egptr sb) (fdbuf.egptr sb) (fdbuf.fd sb)
    (fdbuf.buf sb) (fdbuf.capacity sb) (fdbuf.owned sb).

(** The outcome of [seekoff] on its optimisation path, from the outcome
    of the [skip] it calls. *)
Definition seekoff_outcome (sb : fdbuf.t) (k : outcome unit) : outcome Z :=
  match k with
  | Ok _ => Ok (ptr_diff (fdbuf.egptr sb) (fdbuf.eback sb))
  | Throw e => Throw e
  | Undefined u => Undefined u
  | OutOfFuel => OutOfFuel
  end.

(** A seek reports the absolute position of the stream: it returns, and
    what it returns is the offset in the source of the next byte. *)
Definition reports_stream_pos (r : option (outcome Z * Obj)) : Prop :=
  match r with
  | Some (Ok v, st) => stream_pos st = Some v
  | _ => False
  end.

(** Scenario: a regular file of 10000 bytes; skip 4096, read 100, then
    ask for the position. *)
Definition skip_read_tell : option (outcome (Z * (Z * list byte) * Z) * Obj) :=
  with_stream (fdbuf_of_fd 3)
    (p1 <- skipForward 1 4096 ;;
     r <- stream_read 1 100 ;;
     p2 <- skipForward 1 0 ;;
     ret (p1, r, p2))
    (world_with (regular_file 10000) []).

(** Scenario: a regular file of 20 bytes with the stream at offset 10
    and nothing buffered. *)
Definition at_offset_10 {A} (body : M Obj A) : option (outcome A * Obj) :=
  with_stream (fdbuf_of_fd 3) (skipForward 1 10 ;;; body)
    (world_with (regular_file 20) []).

(** Scenario: a character device that delivers 10 bytes, the first
    transfer out of it moving 4 bytes only.  The oracle entries are for
    [fstat] (handle), [open] and [fstat] (null device), [pipe], and the
    first [splice]. *)
Definition short_device : World :=
  world_with (char_device 10) [Proceed; Proceed; Proceed; Proceed; Short 4].

(** Scenario: as [short_device], every transfer out of the device
    moving at most 4 bytes, for two skips in a row. *)
Definition short_device_twice : World :=
  world_with (char_device 10)
    [Proceed; Proceed; Proceed; Proceed; Short 4; Proceed; Short 4; Proceed].

(** Scenario: a stream over a source of 6 bytes after one byte was
    read, so that 5 bytes are buffered and unread. *)
Definition one_byte_read {A} (ep : endpoint) (body : M Obj A)
    : option (outcome A * Obj) :=
  with_stream (fdbuf_of_fd 3) (stream_read 1 1 ;;; body) (world_with ep []).

(** Scenario: one byte read from a regular file of 10 bytes, then the
    caller installs a buffer of 16 bytes of its own. *)
Definition after_setbuf {A} (body : M Obj A) : option (outcome A * Obj) :=
  with_stream (fdbuf_of_fd 3)
    (stream_read 1 1 ;;;
     ext <- liftW (heap_alloc 16) ;;
     setbuf ext 16 ;;;
     body)
    (world_with (regular_file 10) []).

(** ** Vocabulary of the further properties *)

(** No entry of the oracle makes a system call fail; transfers may
    still be short. *)
Definition no_fail (o : list fault) : bool :=
  forallb (fun f => match f with Fail _ => false | _ => true end) o.


(** How many bytes are buffered and unread. *)
Definition window_len (sb : fdbuf.t) : Z :=
  ptr_diff (fdbuf.egptr sb) (fdbuf.gptr sb).

(** The stream [s] stands at offset [p] of a source that delivers [data]:
    its descriptor refers to that source, the kernel being ahead of the
    stream by the bytes that are buffered; the buffer is a live block
    with room for [capacity] bytes; the window is empty, or it lies in
    the buffer and holds the bytes of [data] from offset [p] on; and no
    system call is going to fail. *)
Definition stream_at (mode : Z) (data : list byte) (p : Z) (s : Obj) : Prop :=
  let sb := fst s in
  let w := snd s in
  let b := fdbuf.buf sb in
  0 <= p /\
  0 < fdbuf.capacity sb < two63 /\
  no_fail (w_oracle w) = true /\
  w_fds w !! Fd.fd (fdbuf.fd sb) = Some (EData mode data (p + window_len sb)) /\
  exists bytes,
    w_heap w !! blk b = Some (mkblock bytes true) /\
    0 <= off b /\ off b + fdbuf.capacity sb <= Z.of_nat (length bytes) /\
    (ptr_eqb (fdbuf.gptr sb) (fdbuf.egptr sb) = true \/
     (blk (fdbuf.gptr sb) = blk b /\ blk (fdbuf.egptr sb) = blk b /\
      off b <= off (fdbuf.gptr sb) /\
      off (fdbuf.gptr sb) < off (fdbuf.egptr sb) /\
      off (fdbuf.egptr sb) <= off b + fdbuf.capacity sb /\
      slice bytes (off (fdbuf.gptr sb)) (window_len sb)
      = slice data p (window_len sb))).

(** How many of [n] requested bytes a source of [data] still has at
    offset [p]. *)
Definition to_come (data : list byte) (p n : Z) : Z :=
  Z.min n (Z.max 0 (Z.of_nat (length data) - p)).

(** ** Operations on a stream between construction and destruction *)

Inductive stream_op :=
  | StRead (n : Z)
  | StSeek (off : Z) (way : seekdir) (which : Z)
  | StSetbuf (s : ptr) (n : Z).

Definition run_stream_op (fuel : nat) (o : stream_op) : M Obj unit :=
  match o with
  | StRead n => xsgetn fuel n ;;; ret tt
  | StSeek off way which => seekoff fuel off way which ;;; ret tt
  | StSetbuf s n => setbuf s n
  end.

(** The caller goes on after an operation whatever its outcome. *)
Fixpoint run_stream_ops (fuel : nat) (ops : list stream_op) (s : Obj) : Obj :=
  match ops with
  | [] => s
  | o :: ops => run_stream_ops fuel ops (snd (run_stream_op fuel o s))
  end.

(** [delete buf] of [~fdistream()], line 319: the destructor of the
    stream object runs in the state the operations left. *)
Definition destroy (s : Obj) : World := snd (fdbuf_dtor (fst s) (snd s)).

(** Which blocks of the heap are allocated. *)
Definition lifetimes (w : World) : list bool := map b_live (w_heap w).

(** [w'] has the allocations of [w]: the same blocks allocated, the
    same calls of [delete[]] made. *)
Definition same_lifetimes (w w' : World) : Prop :=
  w_freed w' = w_freed w /\ lifetimes w' = lifetimes w.

(** [s'] has the buffer of [s] and its ownership, and the allocations
    of [s]. *)
Definition same_buffer (s s' : Obj) : Prop :=
  fdbuf.owned (fst s') = fdbuf.owned (fst s) /\
  fdbuf.buf (fst s') = fdbuf.buf (fst s) /\
  same_lifetimes (snd s) (snd s').

(** A member function that neither releases memory nor assigns [buf]
    or [owned]. *)
Definition stable {A} (m : M Obj A) : Prop :=
  forall s, same_buffer s (snd (m s)).

(** The two states of the buffer [b] the constructor allocated, with
    [F] the calls of [delete[]] and [L] the allocations at
    construction: the object owns [b], nothing released; or it owns
    nothing, and [b] was released once. *)
Definition buffer_state (b : nat) (F : list nat) (L : list bool) (s : Obj) : Prop :=
  (fdbuf.owned (fst s) = true /\ blk (fdbuf.buf (fst s)) = b /\
   w_freed (snd s) = F /\ lifetimes (snd s) = L) \/
  (fdbuf.owned (fst s) = false /\
   w_freed (snd s) = b :: F /\ lifetimes (snd s) = <[b := false]> L).


(** The function-local statics that [skip] uses on a descriptor of kind
    [t] are constructed: none for a regular file, [dev_null] of
    [splice_pipe_to_null] for a FIFO, [dev_null] and [p] of
    [splice_to_null] otherwise. *)
Definition helpers_ready (t : FdType) (w : World) : Prop :=
  match t with
  | reg => True
  | fifo => is_Some (tl_fifo_dev_null w)
  | other => is_Some (tl_other_dev_null w) /\ is_Some (tl_other_p w)
  end.

(** Between [w] and [w'] no descriptor was handed out, [close] was not
    called and the statics were not assigned. *)
Definition no_descriptor_traffic (w w' : World) : Prop :=
  w_next w' = w_next w /\ w_closed w' = w_closed w /\
  tl_fifo_dev_null w' = tl_fifo_dev_null w /\
  tl_other_dev_null w' = tl_other_dev_null w /\
  tl_other_p w' = tl_other_p w.


(** * Properties *)

(** ** Reasoning about computations *)

Lemma bind_Ok_inv {S A B} (m : M S A) (k : A -> M S B) s b s' :
  bind m k s = (Ok b, s') ->
  exists a s1, m s = (Ok a, s1) /\ k a s1 = (Ok b, s').
Proof.
  unfold bind. destruct (m s) as [[a| | |] s1]; try discriminate.
  intros H. exists a, s1. split; [reflexivity | exact H].
Qed.

Lemma bind_Ok {S A B} (m : M S A) (k : A -> M S B) s a s1 :
  m s = (Ok a, s1) -> bind m k s = k a s1.
Proof. unfold bind. intros ->. reflexivity. Qed.

Lemma throw_not_Ok {S A} (e : exn) (s : S) (a : A) s' :
  throw e s = (Ok a, s') -> False.
Proof. unfold throw. discriminate. Qed.

Lemma out_of_fuel_not_Ok {S A} (s : S) (a : A) s' :
  out_of_fuel s = (Ok a, s') -> False.
Proof. unfold out_of_fuel. discriminate. Qed.

(** Invert a hypothesis that a sequence of binds ends in [Ok]. *)
Ltac inv_ok H :=
  repeat match type of H with
  | bind _ _ _ = (Ok _, _) =>
      let a := fresh "a" in let s := fresh "s" in
      let H1 := fresh "H" in
      apply bind_Ok_inv in H; destruct H as (a & s & H1 & H)
  | throw _ _ = (Ok _, _) => exfalso; exact (throw_not_Ok _ _ _ _ H)
  | out_of_fuel _ = (Ok _, _) => exfalso; exact (out_of_fuel_not_Ok _ _ _ H)
  | ret _ _ = (Ok _, _) => unfold ret in H; injection H as <- <-
  end.

(** ** Integers and classification *)

Ltac int_consts :=
  change two64 with 18446744073709551616 in *;
  change two63 with 9223372036854775808 in *.

Lemma to_size_t_small z : 0 <= z < two64 -> to_size_t z = z.
Proof. intros H. unfold to_size_t. apply Z.mod_small. exact H. Qed.

Lemma to_size_t_negative z :
  - two64 < z < 0 -> to_size_t z = two64 + z /\ 0 < to_size_t z.
Proof.
  intros H. unfold to_size_t.
  assert (E : z mod two64 = two64 + z).
  { symmetry. apply (Z.mod_unique z two64 (-1) (two64 + z)); int_consts; lia. }
  rewrite E. int_consts. lia.
Qed.

Lemma to_off_t_to_size_t z :
  - two63 <= z < two63 -> to_off_t (to_size_t z) = z.
Proof.
  intros H. unfold to_off_t, to_size_t.
  rewrite Zplus_mod_idemp_l.
  apply Z.sub_move_r. apply Z.mod_small. int_consts. lia.
Qed.

Lemma classify_reg_iff st_mode :
  classify st_mode = reg <-> Z.land st_mode S_IFREG <> 0.
Proof.
  unfold classify.
  destruct (Z.eqb_spec (Z.land st_mode S_IFREG) 0) as [E|E]; simpl.
  - split; [|congruence].
    destruct (Z.land st_mode S_IFIFO =? 0); simpl; discriminate.
  - split; [intros _; exact E | reflexivity].
Qed.

(** ** The constructors of [Fd] *)

Lemma sys_fstat_ok d w r m w' :
  sys_fstat d w = (Ok (r, m), w') ->
  r <> -1 ->
  w_fds w' = w_fds w /\ w_next w' = w_next w /\ w_closed w' = w_closed w /\
  exists ep, w_fds w !! d = Some ep /\ m = endpoint_mode ep.
Proof.
  unfold sys_fstat, bind, next_fault, gets, fail_with, ret.
  destruct (w_oracle w) as [|[| |e] o]; simpl;
    try (intros [= <- <- <-] Hr; congruence);
    (destruct (w_fds w !! d) as [ep|] eqn:E; simpl;
     [intros [= <- <- <-] _; repeat split; eauto
     |intros [= <- <- <-] Hr; congruence]).
Qed.

Lemma Fd_of_fd_inv d w h w' :
  Fd_of_fd d w = (Ok h, w') ->
  exists ep, w_fds w !! d = Some ep /\ w_fds w' = w_fds w /\
             h = Fd.mk d (classify (endpoint_mode ep)) false.
Proof.
  unfold Fd_of_fd. unfold bind at 1.
  destruct (sys_fstat d w) as [[[r m]| | |] w1] eqn:E; try discriminate.
  destruct (Z.eqb_spec r (-1)) as [Hr|Hr]; simpl.
  - unfold bind, errno_now, gets, throw. discriminate.
  - unfold ret. intros [= <- <-].
    destruct (sys_fstat_ok _ _ _ _ _ E Hr) as (Hf & _ & _ & ep & Hep & ->).
    exists ep. auto.
Qed.

(** The world once the next entry of the oracle is taken. *)
Lemma next_fault_eq w :
  next_fault w = (Ok (hd Proceed (w_oracle w)), set_oracle (tl (w_oracle w)) w).
Proof.
  unfold next_fault. destruct w as [? ? ? ? ? [|f o] ? ? ? ? ? ? ? ?]; reflexivity.
Qed.

Lemma sys_open_cases pth flags w :
  let w0 := set_oracle (tl (w_oracle w)) w in
  let d := Z.of_N (w_next w) in
  (exists e, sys_open pth flags w = (Ok (-1), set_errno e w0)) \/
  (exists ep, sys_open pth flags w =
     (Ok d, set_next (w_next w + 1) (set_fds (<[d := ep]> (w_fds w)) w0))).
Proof.
  unfold sys_open, bind. rewrite next_fault_eq.
  destruct (hd Proceed (w_oracle w)) as [|k|e]; simpl;
    unfold bind, gets, fail_with, modify, ret; simpl;
    try (left; eexists; reflexivity);
    (destruct (w_fs w !! pth) as [ep|]; simpl;
     [right; exists ep; reflexivity | left; eexists; reflexivity]).
Qed.

Lemma open_retry_unfold fuel pth flags :
  open_retry fuel pth flags =
  (d <- sys_open pth flags ;;
   if d =? -1 then
     e <- errno_now ;;
     if negb (errno_eqb e EINTR) then throw (OpenFailed pth e)
     else match fuel with
          | O => out_of_fuel
          | S fuel' => open_retry fuel' pth flags
          end
   else ret d).
Proof. destruct fuel; reflexivity. Qed.

Lemma fresh_is_not_minus_one (n : N) : (Z.of_N n =? -1) = false.
Proof. apply Z.eqb_neq. lia. Qed.

Lemma Fd_of_path_inv fuel pth flags w h w' :
  Fd_of_path fuel pth flags w = (Ok h, w') ->
  Fd.owned h = true /\
  exists ep, w_fds w' !! Fd.fd h = Some ep /\ Fd.type h = classify (endpoint_mode ep).
Proof.
  unfold Fd_of_path. intros H.
  apply bind_Ok_inv in H. destruct H as (d & w1 & Ho & H).
  apply bind_Ok_inv in H. destruct H as ([r m] & w2 & Hs & H).
  destruct (Z.eqb_spec r (-1)) as [Hr|Hr]; simpl in H.
  - inv_ok H.
  - inv_ok H. simpl. split; [reflexivity|].
    destruct (sys_fstat_ok _ _ _ _ _ Hs Hr) as (Hf & _ & _ & ep & Hep & ->).
    exists ep. split; [|reflexivity].
    rewrite Hf. exact Hep.
Qed.

(** C9. Classification tests the stat mode with a bitwise AND against
    the regular-file bit and then the FIFO bit, not the file-type field
    for equality.  For a handle built by either constructor on a
    descriptor with [st_mode] [m]: when [m] has the [S_IFREG] bit the
    kind is [reg] and [skip] is the [lseek] call; when it has not but
    has the [S_IFIFO] bit the kind is [fifo] and [skip] is the
    one-hop transfer; when it has neither the kind is [other] and
    [skip] is the two-hop transfer.  The type code of a socket is not
    that of a regular file but contains the [S_IFREG] bit, so a socket
    is classified [reg], which a comparison of the type field would
    not do. *)
Theorem classification_tests_regular_bit
    (fuel : nat) (pth : string) (flags d : Z) (w w' : World) (h : Fd.t)
    (ep : endpoint) :
  Fd_of_fd d w = (Ok h, w') \/ Fd_of_path fuel pth flags w = (Ok h, w') ->
  w_fds w' !! Fd.fd h = Some ep ->
  let m := endpoint_mode ep in
  (Z.land m S_IFREG <> 0 ->
   Fd.type h = reg /\
   forall fuel' n, skip fuel' h n = lseek h (to_off_t n) SEEK_CUR) /\
  (Z.land m S_IFREG = 0 -> Z.land m S_IFIFO <> 0 ->
   Fd.type h = fifo /\
   forall fuel' n, skip fuel' h n = splice_pipe_to_null fuel' h n) /\
  (Z.land m S_IFREG = 0 -> Z.land m S_IFIFO = 0 ->
   Fd.type h = other /\
   forall fuel' n, skip fuel' h n = splice_to_null fuel' h n) /\
  (Z.land S_IFSOCK S_IFMT <> S_IFREG /\ Z.land S_IFSOCK S_IFREG <> 0 /\
   classify S_IFSOCK = reg).
Proof.
  intros Hc Hep m.
  assert (Ht : Fd.type h = classify m).
  { destruct Hc as [Hc|Hc].
    - destruct (Fd_of_fd_inv _ _ _ _ Hc) as (ep' & Hl & Hf & ->). simpl in *.
      rewrite Hf, Hl in Hep. injection Hep as ->. reflexivity.
    - destruct (Fd_of_path_inv _ _ _ _ _ _ Hc) as (_ & ep' & Hl & ->).
      rewrite Hl in Hep. injection Hep as ->. reflexivity. }
  unfold skip. rewrite Ht. unfold classify.
  split; [|split; [|split]].
  - intros Hr. apply Z.eqb_neq in Hr. rewrite Hr. split; reflexivity.
  - intros Hr Hf. apply Z.eqb_eq in Hr. apply Z.eqb_neq in Hf.
    rewrite Hr, Hf. split; reflexivity.
  - intros Hr Hf. apply Z.eqb_eq in Hr. apply Z.eqb_eq in Hf.
    rewrite Hr, Hf. split; reflexivity.
  - split; [vm_compute; discriminate|]. split; [vm_compute; discriminate|].
    reflexivity.
Qed.

Lemma classification_tests_regular_bit_witness :
  (Fd.type (Fd.mk 3 reg false) = reg /\
   forall fuel' n, skip fuel' (Fd.mk 3 reg false) n
                   = lseek (Fd.mk 3 reg false) (to_off_t n) SEEK_CUR) /\
  (Fd.type (Fd.mk 3 fifo false) = fifo /\
   forall fuel' n, skip fuel' (Fd.mk 3 fifo false) n
                   = splice_pipe_to_null fuel' (Fd.mk 3 fifo false) n) /\
  (Fd.type (Fd.mk 3 other false) = other /\
   forall fuel' n, skip fuel' (Fd.mk 3 other false) n
                   = splice_to_null fuel' (Fd.mk 3 other false) n).
Proof.
  split; [|split].
  - apply (classification_tests_regular_bit 0 "" 0 3
             (world_with (socket 4) []) (world_with (socket 4) [])
             (Fd.mk 3 reg false) (socket 4)).
    + left. vm_compute. reflexivity.
    + vm_compute. reflexivity.
    + vm_compute. discriminate.
  - apply (classification_tests_regular_bit 0 "" 0 3
             (world_with (fifo_end 4) []) (world_with (fifo_end 4) [])
             (Fd.mk 3 fifo false) (fifo_end 4)).
    + left. vm_compute. reflexivity.
    + vm_compute. reflexivity.
    + vm_compute. reflexivity.
    + vm_compute. discriminate.
  - apply (classification_tests_regular_bit 0 "" 0 3
             (world_with (char_device 4) []) (world_with (char_device 4) [])
             (Fd.mk 3 other false) (char_device 4)).
    + left. vm_compute. reflexivity.
    + vm_compute. reflexivity.
    + vm_compute. reflexivity.
    + vm_compute. reflexivity.
Defined.

(** ** [seekoff] *)

(** Everything but a relative seek whose direction is not exactly
    [out] is left to the base class. *)
Lemma seekoff_fallback fuel off way which :
  which = ios_out \/ way <> cur ->
  seekoff fuel off way which = streambuf_seekoff off way which.
Proof.
  intros [->|Hw]; unfold seekoff.
  - reflexivity.
  - destruct way; try congruence; rewrite orb_true_r; reflexivity.
Qed.

(** On the other path the window is given up and [skip] is asked for
    [off - buffered] as a [size_t], whatever the sign of [off]. *)
Lemma seekoff_cur_eq fuel off which sb w :
  which <> ios_out ->
  let k := skip fuel (fdbuf.fd sb)
             (to_size_t (off - ptr_diff (fdbuf.egptr sb) (fdbuf.gptr sb))) w in
  seekoff fuel off cur which (sb, w) =
  (seekoff_outcome sb (fst k), (drop_window sb, snd k)).
Proof.
  intros Hw. unfold seekoff.
  apply Z.eqb_neq in Hw. rewrite Hw. simpl.
  unfold bind, this, gets, setg, modify, liftW, ret. simpl.
  destruct (skip fuel _ _ w) as [[[]| | |] w1]; reflexivity.
Qed.

(** C10. On the path of the forward-seek optimisation the whole unread
    window is given up ([gptr] becomes [egptr]) whatever the offset,
    and the count handed to [skip] is [off - buffered] reduced modulo
    2^64: when [off] is below the number of buffered bytes the
    dispatcher gets [2^64 + off - buffered], which is positive, not
    zero. *)
Theorem seekoff_passes_wrapped_remainder
    (fuel : nat) (off which : Z) (sb : fdbuf.t) (w : World) :
  which <> ios_out ->
  let buffered := ptr_diff (fdbuf.egptr sb) (fdbuf.gptr sb) in
  let r := seekoff fuel off cur which (sb, w) in
  let k := skip fuel (fdbuf.fd sb) ((off - buffered) mod 2 ^ 64) w in
  fdbuf.gptr (fst (snd r)) = fdbuf.egptr sb /\
  fdbuf.egptr (fst (snd r)) = fdbuf.egptr sb /\
  snd (snd r) = snd k /\
  fst r = seekoff_outcome sb (fst k) /\
  (- 2 ^ 64 < off - buffered < 0 ->
   (off - buffered) mod 2 ^ 64 = 2 ^ 64 + (off - buffered) /\
   0 < (off - buffered) mod 2 ^ 64).
Proof.
  intros Hw buffered r k. subst r.
  rewrite (seekoff_cur_eq fuel off which sb w Hw). simpl.
  repeat split; try reflexivity;
    destruct (to_size_t_negative (off - buffered)) as [E1 E2];
    try exact E1; try exact E2; int_consts; lia.
Qed.

Lemma seekoff_passes_wrapped_remainder_witness :
  let sb := fdbuf.mk (mkptr 0 0) (mkptr 0 1) (mkptr 0 6)
              (Fd.mk 3 reg false) (mkptr 0 0) 8192 true in
  let w := world_with (regular_file 6) [] in
  let r := seekoff 0 0 cur ios_in (sb, w) in
  let k := skip 0 (fdbuf.fd sb) ((0 - 5) mod 2 ^ 64) w in
  fdbuf.gptr (fst (snd r)) = mkptr 0 6 /\
  fdbuf.egptr (fst (snd r)) = mkptr 0 6 /\
  snd (snd r) = snd k /\
  fst r = seekoff_outcome sb (fst k) /\
  (- 2 ^ 64 < 0 - 5 < 0 ->
   (0 - 5) mod 2 ^ 64 = 2 ^ 64 + (0 - 5) /\ 0 < (0 - 5) mod 2 ^ 64).
Proof.
  intros sb w.
  apply (seekoff_passes_wrapped_remainder 0 0 ios_in sb w).
  vm_compute. discriminate.
Defined.

(** C3.  The position [seekoff] reports is wrong.  The override of
    [std::streambuf::seekoff] has to return the new position of the
    stream; on the optimisation path it returns [gptr - eback]
    computed after the window was given up, that is [egptr - eback],
    the length of the window it has just dropped, for every offset and
    every state.  On a regular file of 10000 bytes, [skipForward(4096)]
    on the new stream reports 0 with the stream at offset 4096, the
    following [read(buf, 100)] returns the 100 bytes at offsets
    [4096, 4196), and asking for the position afterwards reports 5904
    while the stream is at offset 4196. *)
Theorem seekoff_reports_window_offset
    (fuel : nat) (off which : Z) (sb : fdbuf.t) (w : World) (v : Z) (st : Obj) :
  which <> ios_out ->
  seekoff fuel off cur which (sb, w) = (Ok v, st) ->
  (v = ptr_diff (fdbuf.egptr sb) (fdbuf.eback sb) /\
   fdbuf.gptr (fst st) = fdbuf.egptr sb) /\
  (result skip_read_tell = Some (Ok (0, (100, bytes_from 4096 100), 5904)) /\
   final stream_pos skip_read_tell = Some (Some 4196)).
Proof.
  intros Hw H. rewrite (seekoff_cur_eq fuel off which sb w Hw) in H.
  simpl in H. split.
  - destruct (fst (skip fuel _ _ w)) as [[]| | |]; simpl in H; try discriminate.
    injection H as <- <-. split; reflexivity.
  - split; vm_compute; reflexivity.
Qed.

Lemma seekoff_reports_window_offset_witness :
  (0 = ptr_diff (mkptr 0 0) (mkptr 0 0) /\
   fdbuf.gptr
     (fst (snd (seekoff 0 4096 cur ios_in
                  (fdbuf.mk (mkptr 0 0) (mkptr 0 0) (mkptr 0 0)
                     (Fd.mk 3 reg false) (mkptr 0 0) 8192 true,
                   world_with (regular_file 10000) [])))) = mkptr 0 0) /\
  (result skip_read_tell = Some (Ok (0, (100, bytes_from 4096 100), 5904)) /\
   final stream_pos skip_read_tell = Some (Some 4196)).
Proof.
  apply (seekoff_reports_window_offset 0 4096 ios_in
           (fdbuf.mk (mkptr 0 0) (mkptr 0 0) (mkptr 0 0)
              (Fd.mk 3 reg false) (mkptr 0 0) 8192 true)
           (world_with (regular_file 10000) []) 0).
  - vm_compute. discriminate.
  - vm_compute. reflexivity.
Defined.

(** On the file of the scenario the value reported is not the
    position of the stream: [skipForward(4096)] returns 0 with the
    stream at offset 4096, and the position asked for after the read is
    reported as 5904, not 4196. *)
Lemma seekoff_does_not_report_absolute_position :
  ~ reports_stream_pos
      (with_stream (fdbuf_of_fd 3) (skipForward 1 4096)
         (world_with (regular_file 10000) [])) /\
  result skip_read_tell <> Some (Ok (4096, (100, bytes_from 4096 100), 4196)).
Proof.
  split.
  - vm_compute. discriminate.
  - vm_compute. discriminate.
Qed.

(** C4 at a backward seek.  On a regular file with the stream at offset
    10 and nothing buffered, [seekoff(-3, cur, in)] is not the fallback
    of the base class (which would return -1 and move nothing): it
    takes the optimisation path, returns 0 and moves the descriptor
    back to offset 7. *)
Theorem backward_relative_seek_is_not_a_fallback :
  (result (at_offset_10 (seekoff 1 (-3) cur ios_in)) = Some (Ok 0) /\
   final stream_pos (at_offset_10 (seekoff 1 (-3) cur ios_in)) = Some (Some 7)) /\
  (result (at_offset_10 (streambuf_seekoff (-3) cur ios_in)) = Some (Ok (-1)) /\
   final stream_pos (at_offset_10 (streambuf_seekoff (-3) cur ios_in))
   = Some (Some 10)) /\
  (forall fuel off sb w,
     seekoff fuel off cur ios_in (sb, w) =
     (seekoff_outcome sb
        (fst (skip fuel (fdbuf.fd sb)
                (to_size_t (off - ptr_diff (fdbuf.egptr sb) (fdbuf.gptr sb))) w)),
      (drop_window sb,
       snd (skip fuel (fdbuf.fd sb)
              (to_size_t (off - ptr_diff (fdbuf.egptr sb) (fdbuf.gptr sb))) w)))).
Proof.
  split; [|split].
  - split; vm_compute; reflexivity.
  - split; vm_compute; reflexivity.
  - intros fuel off sb w. apply seekoff_cur_eq. vm_compute. discriminate.
Qed.

(** ** Relative seeks on a regular file

    On a regular file the conversion of [off - buffered] to [size_t] in
    [seekoff] is undone by the conversion to [off_t] in [skip], so the
    seek moves the stream by [off] whatever is buffered. *)

Lemma sys_lseek_cur d w mode data pos x :
  (forall e, hd Proceed (w_oracle w) <> Fail e) ->
  w_fds w !! d = Some (EData mode data pos) ->
  seekable mode = true ->
  0 <= pos + x <= max_offset w ->
  sys_lseek d x SEEK_CUR w =
  (Ok (pos + x),
   set_fds (<[d := EData mode data (pos + x)]> (w_fds w))
     (set_oracle (tl (w_oracle w)) w)).
Proof.
  intros Hf Hd Hs Hp. unfold sys_lseek, bind. rewrite next_fault_eq.
  destruct (hd Proceed (w_oracle w)) as [|k|e];
    try (exfalso; apply (Hf e); reflexivity);
    simpl; unfold bind, gets, modify, ret; simpl; rewrite Hd, Hs;
    change (max_offset (set_oracle (tl (w_oracle w)) w)) with (max_offset w);
    (replace (pos + x <? 0) with false by (symmetry; apply Z.ltb_ge; lia));
    (replace (max_offset w <? pos + x) with false
       by (symmetry; apply Z.ltb_ge; lia));
    reflexivity.
Qed.

Lemma seekoff_regular fuel off which sb w mode data pos :
  let buffered := ptr_diff (fdbuf.egptr sb) (fdbuf.gptr sb) in
  let d := Fd.fd (fdbuf.fd sb) in
  which <> ios_out ->
  Fd.type (fdbuf.fd sb) = reg ->
  (forall e, hd Proceed (w_oracle w) <> Fail e) ->
  w_fds w !! d = Some (EData mode data pos) ->
  seekable mode = true ->
  - two63 <= off - buffered < two63 ->
  0 <= pos + (off - buffered) <= max_offset w ->
  seekoff fuel off cur which (sb, w) =
  (Ok (ptr_diff (fdbuf.egptr sb) (fdbuf.eback sb)),
   (drop_window sb,
    set_fds (<[d := EData mode data (pos + (off - buffered))]> (w_fds w))
      (set_oracle (tl (w_oracle w)) w))).
Proof.
  intros buffered d Hw Ht Hf Hd Hs Hr Hp.
  rewrite (seekoff_cur_eq fuel off which sb w Hw). fold buffered.
  unfold skip. rewrite Ht. rewrite to_off_t_to_size_t by exact Hr.
  unfold lseek. fold d.
  rewrite (bind_Ok _ _ _ _ _ (sys_lseek_cur d w mode data pos _ Hf Hd Hs Hp)).
  replace (pos + (off - buffered) =? -1) with false
    by (symmetry; apply Z.eqb_neq; lia).
  reflexivity.
Qed.

(** The stream position after the seek is the one before plus [off]. *)
Lemma seekoff_regular_stream_pos fuel off which sb w mode data pos :
  let buffered := ptr_diff (fdbuf.egptr sb) (fdbuf.gptr sb) in
  which <> ios_out ->
  Fd.type (fdbuf.fd sb) = reg ->
  (forall e, hd Proceed (w_oracle w) <> Fail e) ->
  w_fds w !! Fd.fd (fdbuf.fd sb) = Some (EData mode data pos) ->
  seekable mode = true ->
  - two63 <= off - buffered < two63 ->
  0 <= pos + (off - buffered) <= max_offset w ->
  stream_pos (sb, w) = Some (pos - buffered) /\
  stream_pos (snd (seekoff fuel off cur which (sb, w))) = Some (pos - buffered + off).
Proof.
  intros buffered Hw Ht Hf Hd Hs Hr Hp.
  rewrite (seekoff_regular fuel off which sb w mode data pos Hw Ht Hf Hd Hs Hr Hp).
  unfold stream_pos, fd_pos. simpl. rewrite Hd, lookup_insert_eq.
  fold buffered. unfold ptr_diff. split; f_equal; lia.
Qed.

(** With no fault injected, two forward seeks on a regular file end
    where the one seek by the sum ends, whatever is buffered. *)
Lemma seekoff_regular_compose fuel a b sb w mode data pos :
  let buffered := ptr_diff (fdbuf.egptr sb) (fdbuf.gptr sb) in
  Fd.type (fdbuf.fd sb) = reg ->
  w_oracle w = [] ->
  w_fds w !! Fd.fd (fdbuf.fd sb) = Some (EData mode data pos) ->
  seekable mode = true ->
  0 <= buffered <= pos -> pos < two63 ->
  0 <= a -> 0 <= b -> pos - buffered + (a + b) <= max_offset w ->
  stream_pos (snd ((skipForward fuel a ;;; skipForward fuel b) (sb, w)))
  = Some (pos - buffered + (a + b)) /\
  stream_pos (snd (skipForward fuel (a + b) (sb, w)))
  = Some (pos - buffered + (a + b)).
Proof.
  intros buffered Ht Ho Hd Hs Hb Hp Ha Hb' Hab.
  assert (Hlim : max_offset w <= two63 - 1) by (unfold max_offset; lia).
  assert (Hw : ios_in <> ios_out) by (vm_compute; discriminate).
  assert (Hf : forall e, hd Proceed (w_oracle w) <> Fail e)
    by (rewrite Ho; discriminate).
  unfold skipForward. split.
  - rewrite (bind_Ok _ _ _ _ _
               (seekoff_regular fuel a ios_in sb w mode data pos Hw Ht Hf Hd Hs
                  ltac:(fold buffered; int_consts; lia) ltac:(fold buffered; lia))).
    fold buffered.
    set (w1 := set_fds _ _).
    assert (Hm1 : max_offset w1 = max_offset w) by reflexivity.
    assert (Hf1 : forall e, hd Proceed (w_oracle w1) <> Fail e)
      by (subst w1; simpl; rewrite Ho; discriminate).
    assert (Hd1 : w_fds w1 !! Fd.fd (fdbuf.fd (drop_window sb))
                  = Some (EData mode data (pos + (a - buffered))))
      by (subst w1; simpl; apply lookup_insert_eq).
    assert (Hz : ptr_diff (fdbuf.egptr (drop_window sb)) (fdbuf.gptr (drop_window sb)) = 0)
      by (unfold ptr_diff; simpl; lia).
    destruct (seekoff_regular_stream_pos fuel b ios_in (drop_window sb) w1 mode data
                (pos + (a - buffered)) Hw Ht Hf1 Hd1 Hs
                ltac:(rewrite Hz; int_consts; lia) ltac:(rewrite Hz, Hm1; lia)) as [_ E].
    rewrite E, Hz. f_equal. lia.
  - destruct (seekoff_regular_stream_pos fuel (a + b) ios_in sb w mode data pos
                Hw Ht Hf Hd Hs
                ltac:(fold buffered; int_consts; lia) ltac:(fold buffered; lia))
      as [_ E].
    exact E.
Qed.

(** ** The transfer loops *)

Lemma splice_pipe_to_null_loop_unfold fuel h dev_null n :
  splice_pipe_to_null_loop fuel h dev_null n =
  (if 0 <? n then
     rd <- sys_splice (Fd.fd h) (Fd.fd dev_null) n ;;
     if negb (rd =? -1) then
       match fuel with
       | O => out_of_fuel
       | S fuel' => splice_pipe_to_null_loop fuel' h dev_null (to_size_t (n - rd))
       end
     else e <- errno_now ;; throw (SplicePipeToNullFailed e)
   else ret tt).
Proof. destruct fuel; reflexivity. Qed.

(** Once the source is at end-of-input, so that [splice] returns 0 and
    changes nothing, the loop of [splice_pipe_to_null] goes round with
    [n] unchanged until the budget is gone. *)
Lemma splice_pipe_to_null_spins fuel h dev_null n w :
  0 < n < two64 ->
  sys_splice (Fd.fd h) (Fd.fd dev_null) n w = (Ok 0, w) ->
  splice_pipe_to_null_loop fuel h dev_null n w = (OutOfFuel, w).
Proof.
  intros Hn Hs. induction fuel as [|fuel IH];
    rewrite splice_pipe_to_null_loop_unfold;
    (replace (0 <? n) with true by (symmetry; apply Z.ltb_lt; lia));
    rewrite (bind_Ok _ _ _ _ _ Hs); simpl.
  - reflexivity.
  - rewrite Z.sub_0_r, to_size_t_small by lia. exact IH.
Qed.

(** A first attempt that succeeds does not look at the budget. *)
Lemma open_retry_more_fuel fuel pth flags w d w' :
  open_retry 0 pth flags w = (Ok d, w') ->
  open_retry fuel pth flags w = (Ok d, w').
Proof.
  rewrite (open_retry_unfold 0), (open_retry_unfold fuel). unfold bind at 1 3.
  destruct (sys_open pth flags w) as [[r| | |] w1]; try discriminate.
  destruct (r =? -1); [|intros H; exact H].
  unfold bind, errno_now, gets.
  destruct (negb (errno_eqb (w_errno w1) EINTR)); [intros H; exact H|].
  unfold out_of_fuel. discriminate.
Qed.

Lemma Fd_of_path_more_fuel fuel pth flags w h w' :
  Fd_of_path 0 pth flags w = (Ok h, w') ->
  Fd_of_path fuel pth flags w = (Ok h, w').
Proof.
  unfold Fd_of_path. intros H.
  apply bind_Ok_inv in H. destruct H as (d & w1 & Ho & H).
  rewrite (bind_Ok _ _ _ _ _ (open_retry_more_fuel fuel _ _ _ _ _ Ho)).
  exact H.
Qed.

Lemma thread_local_more_fuel {A} get set (init : nat -> M World A) fuel w a w' :
  (forall w0 a0 w1, init 0%nat w0 = (Ok a0, w1) -> init fuel w0 = (Ok a0, w1)) ->
  thread_local get set (init 0%nat) w = (Ok a, w') ->
  thread_local get set (init fuel) w = (Ok a, w').
Proof.
  intros Hi. unfold thread_local. intros H.
  apply bind_Ok_inv in H. destruct H as (c & w0 & Hg & H).
  unfold gets in Hg. injection Hg as <- <-.
  rewrite (bind_Ok _ _ w (get w) w) by reflexivity.
  destruct (get w) as [a1|]; [exact H|].
  apply bind_Ok_inv in H. destruct H as (a0 & w1 & H0 & H).
  rewrite (bind_Ok _ _ _ _ _ (Hi _ _ _ H0)). exact H.
Qed.

(** [skip] on a FIFO that runs dry: after a first transfer of [rd]
    bytes that leaves bytes outstanding, every further transfer returns
    0 and the call is still looping when the budget is used up. *)
Lemma skip_fifo_spins fuel h n w dev_null w1 rd w2 :
  Fd.type h = fifo ->
  thread_local tl_fifo_dev_null set_tl_fifo_dev_null
    (Fd_of_path 0 "/dev/null" O_WRONLY) w = (Ok dev_null, w1) ->
  0 < n < two64 ->
  sys_splice (Fd.fd h) (Fd.fd dev_null) n w1 = (Ok rd, w2) ->
  rd <> -1 ->
  0 < n - rd < two64 ->
  sys_splice (Fd.fd h) (Fd.fd dev_null) (n - rd) w2 = (Ok 0, w2) ->
  skip fuel h n w = (OutOfFuel, w2).
Proof.
  intros Ht Hd Hn Hs Hrd Hn' Hs'.
  unfold skip. rewrite Ht. unfold splice_pipe_to_null.
  rewrite (bind_Ok _ _ _ _ _
             (thread_local_more_fuel _ _
                (fun f => Fd_of_path f "/dev/null" O_WRONLY) fuel _ _ _
                (fun w0 a0 w3 => Fd_of_path_more_fuel fuel _ _ w0 a0 w3) Hd)).
  rewrite splice_pipe_to_null_loop_unfold.
  replace (0 <? n) with true by (symmetry; apply Z.ltb_lt; lia).
  rewrite (bind_Ok _ _ _ _ _ Hs).
  replace (rd =? -1) with false by (symmetry; apply Z.eqb_neq; exact Hrd).
  cbv beta iota delta [negb].
  destruct fuel as [|fuel]; [reflexivity|].
  rewrite to_size_t_small by lia.
  apply splice_pipe_to_null_spins; assumption.
Qed.

(** C1 at a short transfer.  A character device is of kind [other];
    when the first transfer out of it moves 4 of the 10 bytes asked
    for, [skip] returns normally with 4 bytes discarded and 6 still to
    come. *)
Theorem splice_to_null_stops_after_first_transfer :
  fst (on_handle (fun h => ret (Fd.type h)) short_device) = Ok other /\
  fst (on_handle (fun h => skip 0 h 10) short_device) = Ok tt /\
  fd_pos (snd (on_handle (fun h => skip 0 h 10) short_device)) 3 = Some 4.
Proof. split; [|split]; vm_compute; reflexivity. Qed.

(** C2 at 51 bytes asked of a source holding 50.  On a FIFO [skip]
    never returns and never throws: whatever the budget, the loop is
    still running when it is used up.  On a character device [skip]
    returns normally with the 50 bytes discarded.  Skipping exactly the
    50 bytes of the FIFO does succeed, and the next read returns 0. *)
Theorem skip_past_end_never_reports_premature_end :
  (forall fuel,
     fst (on_handle (fun h => skip fuel h 51) (world_with (fifo_end 50) []))
     = OutOfFuel) /\
  (fst (on_handle (fun h => skip 0 h 51) (world_with (char_device 50) [])) = Ok tt /\
   fd_pos (snd (on_handle (fun h => skip 0 h 51) (world_with (char_device 50) []))) 3
   = Some 50) /\
  fst (on_handle (fun h => skip 1 h 50 ;;; buf <- heap_alloc 8 ;; read 0 h buf 8)
         (world_with (fifo_end 50) [])) = Ok 0.
Proof.
  split; [|split; [split|]; vm_compute; reflexivity].
  intros fuel. unfold on_handle.
  pose (w0 := world_with (fifo_end 50) []).
  pose (h := Fd.mk 3 fifo false).
  pose (dn := Fd.mk 4 other true).
  pose (w1 := snd (thread_local tl_fifo_dev_null set_tl_fifo_dev_null
                     (Fd_of_path 0 "/dev/null" O_WRONLY) w0)).
  pose (w2 := snd (sys_splice 3 4 51 w1)).
  rewrite (bind_Ok _ _ _ h w0) by (vm_compute; reflexivity).
  rewrite (skip_fifo_spins fuel h 51 w0 dn w1 50 w2);
    try (vm_compute; reflexivity); try (vm_compute; discriminate).
  - int_consts; lia.
  - int_consts; lia.
Qed.

(** C5 after a read.  [setbuf] releases the internal buffer once,
    installs the caller's buffer and its capacity and clears [owned],
    and the destructor does not release again; but the window still
    points into the released block, with 9 bytes unread, and the next
    read copies from it. *)
Theorem setbuf_keeps_the_old_window :
  (result (after_setbuf this)
   = Some (Ok (fdbuf.mk (mkptr 0 0) (mkptr 0 1) (mkptr 0 10) (Fd.mk 3 reg false)
                 (mkptr 1 0) 16 false)) /\
   final (fun st => frees 0 (snd st)) (after_setbuf this) = Some 1%nat /\
   final (fun st => b_live <$> (w_heap (snd st) !! 0%nat)) (after_setbuf this)
   = Some (Some false)) /\
  result (after_setbuf (stream_read 1 1)) = Some (Undefined UseAfterFree) /\
  (result (after_setbuf (sb <- this ;; liftW (fdbuf_dtor sb))) = Some (Ok tt) /\
   final (fun st => frees 0 (snd st))
     (after_setbuf (sb <- this ;; liftW (fdbuf_dtor sb))) = Some 1%nat).
Proof.
  split; [split; [|split] | split; [|split]]; vm_compute; reflexivity.
Qed.

(** C6 on a character device that hands out at most 4 bytes at a time.
    [skipForward(3)] twice leaves the stream at offset 6;
    [skipForward(6)] leaves it at offset 4.  All three calls return
    normally and report 0. *)
Theorem two_skips_differ_from_one :
  (result (with_stream (fdbuf_of_fd 3) (skipForward 0 3 ;;; skipForward 0 3)
             short_device_twice) = Some (Ok 0) /\
   final stream_pos (with_stream (fdbuf_of_fd 3) (skipForward 0 3 ;;; skipForward 0 3)
                       short_device_twice) = Some (Some 6)) /\
  (result (with_stream (fdbuf_of_fd 3) (skipForward 0 6) short_device) = Some (Ok 0) /\
   final stream_pos (with_stream (fdbuf_of_fd 3) (skipForward 0 6) short_device)
   = Some (Some 4)).
Proof. split; split; vm_compute; reflexivity. Qed.

(** C7 with bytes buffered.  A stream over a source of 6 bytes of which
    one was read has 5 bytes buffered, which a read returns.
    [skipForward(0)] gives the 5 bytes up and asks [skip] for 2^64 - 5
    bytes, a count [splice] rejects: on a character device it throws
    from [splice_to_null], on a FIFO from [splice_pipe_to_null], and in
    both cases a read after it returns nothing.  On a regular file it
    returns and the same 5 bytes are read after it. *)
Theorem skip_zero_drops_buffered_bytes :
  (result (one_byte_read (char_device 6) (stream_read 1 5))
   = Some (Ok (5, bytes_from 1 5)) /\
   result (one_byte_read (char_device 6) (skipForward 1 0))
   = Some (Throw (Splice1Failed EINVAL)) /\
   result (one_byte_read (char_device 6) (try_then (skipForward 1 0) (stream_read 1 5)))
   = Some (Ok (0, []))) /\
  (result (one_byte_read (fifo_end 6) (stream_read 1 5))
   = Some (Ok (5, bytes_from 1 5)) /\
   result (one_byte_read (fifo_end 6) (skipForward 1 0))
   = Some (Throw (SplicePipeToNullFailed EINVAL)) /\
   result (one_byte_read (fifo_end 6) (try_then (skipForward 1 0) (stream_read 1 5)))
   = Some (Ok (0, []))) /\
  (final stream_pos (one_byte_read (char_device 6) this) = Some (Some 1) /\
   final stream_pos (one_byte_read (char_device 6) (skipForward 1 0)) = Some (Some 6) /\
   final stream_pos (one_byte_read (fifo_end 6) (skipForward 1 0)) = Some (Some 6)) /\
  result (one_byte_read (regular_file 6) (skipForward 1 0 ;;; stream_read 1 5))
  = Some (Ok (5, bytes_from 1 5)).
Proof.
  split; [split; [|split]; vm_compute; reflexivity|].
  split; [split; [|split]; vm_compute; reflexivity|].
  split; [split; [|split]; vm_compute; reflexivity|].
  vm_compute; reflexivity.
Qed.

(** ** The lifetime of a descriptor *)

Lemma read_retry_unfold fuel h buf count :
  read_retry fuel h buf count =
  (n <- sys_read (Fd.fd h) buf count ;;
   if n =? -1 then
     e <- errno_now ;;
     if negb (errno_eqb e EINTR) then throw (ReadError e)
     else match fuel with
          | O => out_of_fuel
          | S fuel' => read_retry fuel' h buf count
          end
   else ret n).
Proof. destruct fuel; reflexivity. Qed.

Lemma closes_cons_eq d l w :
  closes d (set_closed (d :: l) w) = S (length (filter (fun x => x = d) l)).
Proof.
  unfold closes. simpl. rewrite filter_cons_True by reflexivity. reflexivity.
Qed.

Section Keeps.
Context {P : World -> Prop}.

Lemma keeps_ret {A} (a : A) (Q : A -> Prop) : Q a -> keeps P (ret a) Q.
Proof. intros Ha w H. split; [exact H|]. simpl. intros a0 [= <-]. exact Ha. Qed.

Lemma keeps_stop {A} (m : M World A) (Q : A -> Prop) :
  (forall w, snd (m w) = w /\ forall a, fst (m w) <> Ok a) -> keeps P m Q.
Proof.
  intros Hm w H. destruct (Hm w) as [E N]. rewrite E. split; [exact H|].
  intros a Ha. destruct (N a Ha).
Qed.

Lemma keeps_throw {A} (e : exn) (Q : A -> Prop) : keeps P (throw e) Q.
Proof. apply keeps_stop. intros w. split; [reflexivity | discriminate]. Qed.

Lemma keeps_out_of_fuel {A} (Q : A -> Prop) : keeps P out_of_fuel Q.
Proof. apply keeps_stop. intros w. split; [reflexivity | discriminate]. Qed.

Lemma keeps_gets {A} (f : World -> A) : keeps P (gets f) (fun _ => True).
Proof. intros w H. split; [exact H | trivial]. Qed.

Lemma keeps_modify (f : World -> World) :
  (forall w, P w -> P (f w)) -> keeps P (modify f) (fun _ => True).
Proof. intros Hf w H. split; [apply Hf; exact H | trivial]. Qed.

Lemma keeps_bind {A B} (m : M World A) (k : A -> M World B) Q R :
  keeps P m Q -> (forall a, Q a -> keeps P (k a) R) -> keeps P (bind m k) R.
Proof.
  intros Hm Hk w H. destruct (Hm w H) as [H1 H2]. unfold bind.
  destruct (m w) as [[a| | |] w1]; simpl in *;
    try (split; [exact H1 | discriminate]).
  apply (Hk a (H2 a eq_refl) w1 H1).
Qed.

Lemma keeps_thread_local {A} get set (init : M World A) Q :
  (forall a w, P w -> P (set (Some a) w)) ->
  keeps P init Q ->
  keeps P (thread_local get set init) (fun _ => True).
Proof.
  intros Hs Hi. unfold thread_local.
  eapply keeps_bind; [apply keeps_gets|]. intros [a|] _.
  - apply keeps_ret. trivial.
  - eapply keeps_bind; [exact Hi|]. intros a _.
    eapply keeps_bind; [apply keeps_modify; intros w; apply Hs|].
    intros _ _. apply keeps_ret. trivial.
Qed.
End Keeps.

(** Solve [held d c w'] for a world [w'] built from a world with
    [H : held d c w] by the setters. *)
Ltac held_solve H :=
  let Hc := fresh "Hc" in let Hs := fresh "Hs" in let Hn := fresh "Hn" in
  destruct H as (Hc & Hs & Hn); unfold held, closes in *; simpl;
  repeat split;
  [ exact Hc
  | repeat (apply lookup_insert_is_Some'; right); exact Hs
  | lia ].

Section Held.
Variables (d : Z) (c : nat).

Lemma held_heap_store p bs : keeps (held d c) (heap_store p bs) (fun _ => True).
Proof.
  intros w H. unfold heap_store.
  destruct bs as [|b0 bs']; [split; [exact H | trivial]|].
  destruct (w_heap w !! blk p) as [b|]; simpl; [|split; [exact H | trivial]].
  destruct (b_live b); simpl; [|split; [exact H | trivial]].
  destruct (_ || _); simpl; (split; [held_solve H | trivial]).
Qed.

Lemma held_fail_with {A} e (r : A) Q : Q r -> keeps (held d c) (fail_with e r) Q.
Proof.
  intros Hr w H. unfold fail_with. simpl.
  split; [held_solve H | intros a [= <-]; exact Hr].
Qed.

Lemma held_next_fault : keeps (held d c) next_fault (fun _ => True).
Proof.
  intros w H. rewrite next_fault_eq. simpl. split; [held_solve H | trivial].
Qed.

Lemma held_sys_fstat d' : keeps (held d c) (sys_fstat d') (fun _ => True).
Proof.
  unfold sys_fstat. eapply keeps_bind; [apply held_next_fault|].
  intros f _.
  assert (K : keeps (held d c)
                (fds <- gets w_fds ;;
                 match fds !! d' with
                 | None => fail_with EBADF (-1, 0)
                 | Some ep => ret (0, endpoint_mode ep)
                 end) (fun _ => True)).
  { eapply keeps_bind; [apply keeps_gets|]. intros fds _.
    destruct (fds !! d'); [apply keeps_ret | apply held_fail_with]; trivial. }
  destruct f; try exact K. apply held_fail_with. trivial.
Qed.

(** A descriptor that [open] returns is new. *)
Lemma held_sys_open pth flags :
  keeps (held d c) (sys_open pth flags) (fun r => r = -1 \/ r <> d).
Proof.
  intros w H.
  destruct (sys_open_cases pth flags w) as [[e ->]|[ep ->]]; simpl.
  - split; [held_solve H | intros a [= <-]; left; reflexivity].
  - split; [held_solve H | intros a [= <-]; right].
    destruct H as (_ & _ & Hn). lia.
Qed.

Lemma held_sys_close d' :
  d' <> d -> keeps (held d c) (sys_close d') (fun _ => True).
Proof.
  intros Hd w H. split; [|trivial].
  destruct H as (Hc & Hs & Hn).
  assert (E : w_closed (snd (sys_close d' w)) = d' :: w_closed w /\
              is_Some (w_fds (snd (sys_close d' w)) !! d) /\
              w_next (snd (sys_close d' w)) = w_next w).
  { unfold sys_close, bind, modify, gets, fail_with, ret. simpl.
    destruct (w_fds w !! d') as [ep|]; simpl.
    - split; [reflexivity|]. split; [|reflexivity].
      rewrite lookup_delete_ne by exact Hd. exact Hs.
    - split; [reflexivity|]. split; [exact Hs | reflexivity]. }
  destruct E as (Ec & Es & En).
  unfold held, closes. rewrite Ec, En.
  rewrite filter_cons_False by exact Hd.
  split; [exact Hc | split; [exact Es | exact Hn]].
Qed.

Lemma held_sys_pipe : keeps (held d c) sys_pipe (fun _ => True).
Proof.
  unfold sys_pipe. eapply keeps_bind; [apply held_next_fault|]. intros f _.
  assert (K : forall A (r : Z -> A),
            keeps (held d c)
              (n <- gets w_next ;;
               modify (fun w =>
                 set_next (n + 2)
                   (set_pipes (<[Z.of_N n := []]> (w_pipes w))
                      (set_fds (<[Z.of_N n + 1 := EPipeW (Z.of_N n)]>
                                  (<[Z.of_N n := EPipeR (Z.of_N n)]> (w_fds w))) w))) ;;;
               ret (r (Z.of_N n))) (fun _ => True)).
  { intros A r w H. unfold bind, gets, modify, ret. simpl.
    split; [held_solve H | trivial]. }
  destruct f; try apply (K _ (fun x => (0, (x, x + 1)))).
  apply held_fail_with. trivial.
Qed.
End Held.

(** One step of a proof that a computation made of binds, branches and
    the calls below keeps [held d c]. *)
Ltac keeps_step :=
  first
    [ apply keeps_ret; trivial
    | apply held_fail_with; trivial
    | apply keeps_throw
    | apply keeps_out_of_fuel
    | apply keeps_gets
    | apply held_next_fault
    | apply held_heap_store
    | apply held_sys_fstat
    | apply held_sys_pipe
    | apply keeps_modify;
      let w := fresh "w" in let H := fresh "H" in intros w H; held_solve H
    | eapply keeps_bind; [|intros ? ?]
    | match goal with
      | |- keeps _ (match ?x with _ => _ end) _ => destruct x
      | |- keeps _ (let '(_, _) := ?x in _) _ => destruct x
      end ].

Section HeldPrograms.
Variables (d : Z) (c : nat).

Lemma held_sys_read d' buf count :
  keeps (held d c) (sys_read d' buf count) (fun _ => True).
Proof. unfold sys_read. repeat keeps_step. Qed.

Lemma held_sys_lseek d' offset wh :
  keeps (held d c) (sys_lseek d' offset wh) (fun _ => True).
Proof. unfold sys_lseek. repeat keeps_step. Qed.

Lemma held_sys_splice d_in d_out len :
  keeps (held d c) (sys_splice d_in d_out len) (fun _ => True).
Proof. unfold sys_splice. repeat keeps_step. Qed.

Lemma held_open_retry fuel pth flags :
  keeps (held d c) (open_retry fuel pth flags) (fun r => r <> d).
Proof.
  induction fuel as [|fuel IH]; rewrite open_retry_unfold;
    (eapply keeps_bind; [apply held_sys_open|]); intros r Hr;
    (destruct (Z.eqb_spec r (-1)) as [E|E];
     [ unfold errno_now; eapply keeps_bind; [apply keeps_gets|];
       intros e _; destruct (negb (errno_eqb e EINTR));
       [apply keeps_throw|]
     | apply keeps_ret; destruct Hr; congruence ]).
  - apply keeps_out_of_fuel.
  - exact IH.
Qed.

Lemma held_Fd_of_path fuel pth flags :
  keeps (held d c) (Fd_of_path fuel pth flags) (fun _ => True).
Proof.
  unfold Fd_of_path.
  eapply keeps_bind; [apply held_open_retry|]. intros d' Hd'.
  eapply keeps_bind; [apply held_sys_fstat|]. intros [r m] _.
  destruct (negb (r =? -1)); [apply keeps_ret; trivial|].
  eapply keeps_bind; [apply held_sys_close; exact Hd'|]. intros _ _.
  unfold errno_now. repeat keeps_step.
Qed.

Lemma held_Pipe_new : keeps (held d c) Pipe_new (fun _ => True).
Proof. unfold Pipe_new, errno_now. repeat keeps_step. Qed.

Lemma held_read fuel h buf count :
  keeps (held d c) (read fuel h buf count) (fun _ => True).
Proof.
  unfold read.
  apply (keeps_bind _ _ (fun _ => True) _); [|intros; apply keeps_ret; trivial].
  induction fuel as [|fuel IH]; rewrite read_retry_unfold;
    (eapply keeps_bind; [apply held_sys_read|]); intros n _;
    (destruct (n =? -1); [|apply keeps_ret; trivial]);
    unfold errno_now; (eapply keeps_bind; [apply keeps_gets|]);
    intros e _; (destruct (negb (errno_eqb e EINTR)); [apply keeps_throw|]).
  - apply keeps_out_of_fuel.
  - exact IH.
Qed.

Lemma held_lseek h offset wh :
  keeps (held d c) (lseek h offset wh) (fun _ => True).
Proof.
  unfold lseek, errno_now.
  eapply keeps_bind; [apply held_sys_lseek|]. intros o _.
  repeat keeps_step.
Qed.

Lemma held_splice_pipe_to_null fuel h n :
  keeps (held d c) (splice_pipe_to_null fuel h n) (fun _ => True).
Proof.
  unfold splice_pipe_to_null.
  eapply keeps_bind.
  { eapply keeps_thread_local; [|apply held_Fd_of_path].
    intros a w H. held_solve H. }
  intros dev_null _. generalize fuel at 1. intros loop_fuel. revert n.
  induction loop_fuel as [|loop_fuel IH]; intros n;
    rewrite splice_pipe_to_null_loop_unfold;
    (destruct (0 <? n); [|apply keeps_ret; trivial]);
    (eapply keeps_bind; [apply held_sys_splice|]); intros rd _;
    (destruct (negb (rd =? -1));
     [|unfold errno_now; repeat keeps_step]).
  - apply keeps_out_of_fuel.
  - apply IH.
Qed.

Lemma held_splice_to_null fuel h n :
  keeps (held d c) (splice_to_null fuel h n) (fun _ => True).
Proof.
  unfold splice_to_null.
  eapply keeps_bind.
  { eapply keeps_thread_local; [|apply held_Fd_of_path].
    intros a w H. held_solve H. }
  intros dev_null _.
  eapply keeps_bind.
  { eapply keeps_thread_local; [|apply held_Pipe_new].
    intros a w H. held_solve H. }
  intros p _.
  destruct (0 <? n); [|apply keeps_ret; trivial].
  eapply keeps_bind; [apply held_sys_splice|]. intros rd _.
  destruct (0 <? rd).
  - eapply keeps_bind; [apply held_sys_splice|]. intros written _.
    unfold errno_now. repeat keeps_step.
  - unfold errno_now. repeat keeps_step.
Qed.

Lemma held_skip fuel h n : keeps (held d c) (skip fuel h n) (fun _ => True).
Proof.
  unfold skip. destruct (Fd.type h).
  - apply held_lseek.
  - apply held_splice_pipe_to_null.
  - apply held_splice_to_null.
Qed.

Lemma held_run_ops fuel h ops w : held d c w -> held d c (run_ops fuel h ops w).
Proof.
  revert w. induction ops as [|o ops IH]; intros w H; simpl; [exact H|].
  apply IH. destruct o; simpl.
  - refine (proj1 ((_ : keeps (held d c) _ (fun _ => True)) w H)).
    eapply keeps_bind; [apply held_read|]. intros _ _. apply keeps_ret. exact I.
  - exact (proj1 (held_lseek h offset wh w H)).
  - exact (proj1 (held_skip fuel h n w H)).
Qed.
End HeldPrograms.

Lemma wf_world_fresh w : wf_world w -> w_fds w !! Z.of_N (w_next w) = None.
Proof.
  intros Hwf. destruct (w_fds w !! Z.of_N (w_next w)) as [ep|] eqn:E; [|reflexivity].
  assert (H : Z.of_N (w_next w) < Z.of_N (w_next w)) by (apply Hwf; eauto).
  lia.
Qed.

Lemma sys_fstat_frame d w :
  same_descriptors w (snd (sys_fstat d w)) /\
  exists r m, fst (sys_fstat d w) = Ok (r, m) /\
              (r <> -1 -> exists ep, w_fds w !! d = Some ep /\ m = endpoint_mode ep).
Proof.
  unfold sys_fstat, bind. rewrite next_fault_eq.
  destruct (hd Proceed (w_oracle w)); simpl;
    unfold bind, gets, fail_with, ret; simpl;
    try destruct (w_fds w !! d) as [ep|]; simpl;
    (split; [repeat split|]); do 2 eexists; (split; [reflexivity|]);
    intros Hr; try congruence; eauto.
Qed.

Lemma open_retry_spec fuel pth flags w :
  match open_retry fuel pth flags w with
  | (Ok d', w1) =>
      d' = Z.of_N (w_next w) /\ w_closed w1 = w_closed w /\
      w_next w1 = (w_next w + 1)%N /\
      exists ep, w_fds w1 = <[d' := ep]> (w_fds w)
  | (Throw e, w1) => (exists en, e = OpenFailed pth en) /\ same_descriptors w w1
  | (Undefined _, _) => False
  | (OutOfFuel, w1) => same_descriptors w w1
  end.
Proof.
  revert w. induction fuel as [|fuel IH]; intros w;
    rewrite open_retry_unfold; unfold bind at 1;
    (destruct (sys_open_cases pth flags w) as [[e ->]|[ep ->]];
     [ change (-1 =? -1) with true; cbv iota;
       unfold bind, errno_now, gets; simpl;
       destruct (errno_eqb e EINTR); simpl
     | rewrite fresh_is_not_minus_one; unfold ret;
       repeat split; exists ep; reflexivity ]);
    try (split; [eexists; reflexivity | repeat split]);
    try (repeat split; fail).
  exact (IH (set_errno e (set_oracle (tl (w_oracle w)) w))).
Qed.

Lemma Fd_of_fd_spec _fd w :
  match Fd_of_fd _fd w with
  | (Ok h, w1) =>
      Fd.fd h = _fd /\ Fd.owned h = false /\ is_Some (w_fds w !! _fd) /\
      same_descriptors w w1
  | (_, w1) => same_descriptors w w1
  end.
Proof.
  unfold Fd_of_fd. unfold bind at 1.
  destruct (sys_fstat_frame _fd w) as (Hs & r & m & Hr & Hm).
  destruct (sys_fstat _fd w) as [o w1]. simpl in *. subst o.
  destruct (Z.eqb_spec r (-1)) as [E|E]; simpl.
  - exact Hs.
  - destruct (Hm E) as (ep & Hep & _). repeat split; eauto; apply Hs.
Qed.

Lemma sys_close_open d w ep :
  w_fds w !! d = Some ep ->
  sys_close d w
  = (Ok 0, set_fds (delete d (w_fds w)) (set_closed (d :: w_closed w) w)).
Proof.
  intros E. unfold sys_close, bind, modify, gets, ret. simpl. rewrite E. reflexivity.
Qed.

Lemma Fd_of_path_spec fuel pth flags w :
  wf_world w ->
  match Fd_of_path fuel pth flags w with
  | (Ok h, w1) =>
      Fd.owned h = true /\ w_fds w !! Fd.fd h = None /\
      held (Fd.fd h) (closes (Fd.fd h) w) w1
  | (Throw (PathStatFailed _ _), w1) =>
      exists d', w_fds w !! d' = None /\ w_closed w1 = d' :: w_closed w /\
                 w_fds w1 = w_fds w
  | (Undefined _, _) => False
  | (_, w1) => w_closed w1 = w_closed w /\ w_fds w1 = w_fds w
  end.
Proof.
  intros Hwf. unfold Fd_of_path. unfold bind at 1.
  pose proof (open_retry_spec fuel pth flags w) as Ho.
  destruct (open_retry fuel pth flags w) as [[d'|e|u|] w1].
  - destruct Ho as (-> & Hc & Hn & ep & Hf).
    unfold bind at 1.
    destruct (sys_fstat_frame (Z.of_N (w_next w)) w1) as ((Hf2 & Hc2 & Hn2) & r & m & Hr & _).
    destruct (sys_fstat (Z.of_N (w_next w)) w1) as [o w2]. simpl in *. subst o.
    destruct (Z.eqb_spec r (-1)) as [E|E]; simpl.
    + assert (Ho : w_fds w2 !! Z.of_N (w_next w) = Some ep)
        by (rewrite Hf2, Hf; apply lookup_insert_eq).
      rewrite (bind_Ok _ _ _ _ _ (sys_close_open _ _ _ Ho)).
      unfold bind, errno_now, gets, throw. simpl.
      exists (Z.of_N (w_next w)).
      split; [apply wf_world_fresh; exact Hwf|].
      split; [rewrite Hc2, Hc; reflexivity|].
      rewrite Hf2, Hf. apply delete_insert_id, wf_world_fresh, Hwf.
    + split; [reflexivity|]. split; [apply wf_world_fresh; exact Hwf|].
      unfold held, closes. rewrite Hc2, Hc, Hf2, Hf, Hn2, Hn, lookup_insert_eq.
      split; [reflexivity|]. split; [eauto | lia].
  - destruct Ho as ((en & ->) & Hf & Hc & _). split; assumption.
  - exact Ho.
  - destruct Ho as (Hf & Hc & _). split; assumption.
Qed.

Lemma Fd_dtor_owned h w :
  Fd.owned h = true ->
  closes (Fd.fd h) (snd (Fd_dtor h w)) = S (closes (Fd.fd h) w) /\
  w_fds (snd (Fd_dtor h w)) !! Fd.fd h = None.
Proof.
  intros Ho. unfold Fd_dtor. rewrite Ho.
  unfold sys_close, bind, modify, gets, fail_with, ret. simpl.
  destruct (w_fds w !! Fd.fd h) as [ep|] eqn:E; simpl;
    (split; [apply closes_cons_eq|]).
  - apply lookup_delete_eq.
  - exact E.
Qed.

Lemma Fd_dtor_borrowed h w : Fd.owned h = false -> snd (Fd_dtor h w) = w.
Proof. intros Ho. unfold Fd_dtor. rewrite Ho. reflexivity. Qed.

(** C8. In a world whose open descriptors all come from the counter,
    for every sequence of operations [ops] on the handle:
    - a handle built from a path owns a descriptor that was not open
      before; construction and the operations never close it and it is
      open until the destructor runs, which closes it, so [close] is
      called on it exactly once and it is not open afterwards;
    - when [fstat] fails after [open] succeeded, the constructor throws
      after one [close] of the new descriptor, and the descriptors open
      are those open before; when [open] fails nothing is opened or
      closed;
    - a handle built from a descriptor id does not own it, and neither
      the operations nor the destructor close it: it is still open
      after the destructor. *)
Theorem descriptor_closed_exactly_once
    (fuel : nat) (ops : list op) (pth : string) (flags _fd : Z) (w : World) :
  wf_world w ->
  match Fd_of_path fuel pth flags w with
  | (Ok h, w1) =>
      let w2 := run_ops fuel h ops w1 in
      let w3 := snd (Fd_dtor h w2) in
      Fd.owned h = true /\ w_fds w !! Fd.fd h = None /\
      closes (Fd.fd h) w2 = closes (Fd.fd h) w /\ is_Some (w_fds w2 !! Fd.fd h) /\
      closes (Fd.fd h) w3 = S (closes (Fd.fd h) w) /\ w_fds w3 !! Fd.fd h = None
  | (Throw (PathStatFailed _ _), w1) =>
      exists d, w_fds w !! d = None /\ w_closed w1 = d :: w_closed w /\
                w_fds w1 = w_fds w
  | (Undefined _, _) => False
  | (_, w1) => w_closed w1 = w_closed w /\ w_fds w1 = w_fds w
  end /\
  match Fd_of_fd _fd w with
  | (Ok h, w1) =>
      let w3 := snd (Fd_dtor h (run_ops fuel h ops w1)) in
      Fd.fd h = _fd /\ Fd.owned h = false /\
      closes _fd w3 = closes _fd w /\ is_Some (w_fds w3 !! _fd)
  | (_, w1) => w_closed w1 = w_closed w /\ w_fds w1 = w_fds w
  end.
Proof.
  intros Hwf. split.
  - pose proof (Fd_of_path_spec fuel pth flags w Hwf) as Hp.
    destruct (Fd_of_path fuel pth flags w) as [[h|e|u|] w1]; try exact Hp.
    destruct Hp as (Ho & Hfresh & Hh).
    pose proof (held_run_ops _ _ fuel h ops w1 Hh) as (Hc2 & Hs2 & _).
    destruct (Fd_dtor_owned h (run_ops fuel h ops w1) Ho) as (Hc3 & Hs3).
    cbv zeta. rewrite Hc3, Hc2. repeat split; assumption.
  - pose proof (Fd_of_fd_spec _fd w) as Hp.
    destruct (Fd_of_fd _fd w) as [[h|e|u|] w1];
      try (destruct Hp as (Hf & Hc & _); split; assumption).
    destruct Hp as (Hd & Ho & Hs & Hf & Hc & Hn).
    assert (Hh : held (Fd.fd h) (closes _fd w) w1).
    { rewrite Hd. unfold held, closes. rewrite Hc, Hf, Hn.
      split; [reflexivity|]. split; [exact Hs | apply Hwf, Hs]. }
    pose proof (held_run_ops _ _ fuel h ops w1 Hh) as (Hc2 & Hs2 & _).
    cbv zeta. rewrite (Fd_dtor_borrowed h _ Ho). rewrite Hd in Hc2, Hs2.
    repeat split; assumption.
Qed.

Lemma world_with_wf ep o : wf_world (world_with ep o).
Proof.
  intros d [x Hx]. unfold world_with in Hx. simpl in Hx.
  apply lookup_singleton_Some in Hx. destruct Hx as [<- _]. reflexivity.
Defined.

Lemma descriptor_closed_exactly_once_witness :
  wf_world (world_with (regular_file 10) []) /\
  match Fd_of_path 0 "/dev/null" O_RDONLY (world_with (regular_file 10) []) with
  | (Ok h, w1) =>
      let w2 := run_ops 0 h [OpSkip 4; OpLseek 2 SEEK_CUR] w1 in
      let w3 := snd (Fd_dtor h w2) in
      Fd.owned h = true /\ w_fds (world_with (regular_file 10) []) !! Fd.fd h = None /\
      closes (Fd.fd h) w2 = closes (Fd.fd h) (world_with (regular_file 10) []) /\ is_Some (w_fds w2 !! Fd.fd h) /\
      closes (Fd.fd h) w3 = S (closes (Fd.fd h) (world_with (regular_file 10) [])) /\ w_fds w3 !! Fd.fd h = None
  | (Throw (PathStatFailed _ _), w1) =>
      exists d, w_fds (world_with (regular_file 10) []) !! d = None /\ w_closed w1 = d :: w_closed (world_with (regular_file 10) []) /\
                w_fds w1 = w_fds (world_with (regular_file 10) [])
  | (Undefined _, _) => False
  | (_, w1) => w_closed w1 = w_closed (world_with (regular_file 10) []) /\ w_fds w1 = w_fds (world_with (regular_file 10) [])
  end /\
  match Fd_of_fd 3 (world_with (regular_file 10) []) with
  | (Ok h, w1) =>
      let w3 := snd (Fd_dtor h (run_ops 0 h [OpSkip 4; OpLseek 2 SEEK_CUR] w1)) in
      Fd.fd h = 3 /\ Fd.owned h = false /\
      closes 3 w3 = closes 3 (world_with (regular_file 10) []) /\ is_Some (w_fds w3 !! 3)
  | (_, w1) => w_closed w1 = w_closed (world_with (regular_file 10) []) /\ w_fds w1 = w_fds (world_with (regular_file 10) [])
  end.
Proof.
  split; [apply world_with_wf|].
  apply (descriptor_closed_exactly_once 0 [OpSkip 4; OpLseek 2 SEEK_CUR]
           "/dev/null" O_RDONLY 3 (world_with (regular_file 10) [])).
  apply world_with_wf.
Defined.

(** * Further properties of the code *)

(** ** Interrupted system calls *)

Lemma sys_read_fail d buf count e o w :
  sys_read d buf count (set_oracle (Fail e :: o) w)
  = (Ok (-1), set_errno e (set_oracle o w)).
Proof. reflexivity. Qed.

Lemma sys_open_fail pth flags e o w :
  sys_open pth flags (set_oracle (Fail e :: o) w)
  = (Ok (-1), set_errno e (set_oracle o w)).
Proof. reflexivity. Qed.

Lemma read_retry_interrupted k fuel h buf count o w :
  (S k <= fuel)%nat ->
  read_retry fuel h buf count (set_oracle (replicate (S k) (Fail EINTR) ++ o) w)
  = read_retry (fuel - S k) h buf count (set_oracle o (set_errno EINTR w)).
Proof.
  revert fuel w. induction k as [|k IH]; intros [|fuel] w Hk; try lia;
    rewrite read_retry_unfold;
    change (replicate (S ?n) ?x ++ o) with (x :: (replicate n x ++ o));
    rewrite (bind_Ok _ _ _ _ _ (sys_read_fail _ _ _ _ _ _)).
  - simpl. rewrite Nat.sub_0_r. reflexivity.
  - change (read_retry fuel h buf count
              (set_oracle (replicate (S k) (Fail EINTR) ++ o) (set_errno EINTR w))
            = read_retry (fuel - S k) h buf count (set_oracle o (set_errno EINTR w))).
    rewrite IH by lia. reflexivity.
Qed.

Lemma read_retry_starved fuel h buf count o w :
  fst (read_retry fuel h buf count
         (set_oracle (replicate (S fuel) (Fail EINTR) ++ o) w)) = OutOfFuel.
Proof.
  revert w. induction fuel as [|fuel IH]; intros w;
    rewrite read_retry_unfold;
    change (replicate (S ?n) ?x ++ o) with (x :: (replicate n x ++ o));
    rewrite (bind_Ok _ _ _ _ _ (sys_read_fail _ _ _ _ _ _)).
  - reflexivity.
  - exact (IH (set_errno EINTR w)).
Qed.

(** X1. [read] retries exactly on [EINTR].  Interrupted [k + 1] times
    with a budget that allows it, it behaves as the call that was never
    interrupted (only [errno] tells); a failure with another [errno]
    throws the read error at once, with nothing else changed; and it
    never gives up on [EINTR]: interrupted more often than the budget
    allows, it is still retrying. *)
Theorem read_retries_on_EINTR_only
    (fuel k : nat) (h : Fd.t) (buf : ptr) (count : Z) (e : errno)
    (o : list fault) (w : World) :
  (S k <= fuel)%nat ->
  e <> EINTR ->
  read fuel h buf count (set_oracle (replicate (S k) (Fail EINTR) ++ o) w)
  = read (fuel - S k) h buf count (set_oracle o (set_errno EINTR w)) /\
  read fuel h buf count (set_oracle (Fail e :: o) w)
  = (Throw (ReadError e), set_errno e (set_oracle o w)) /\
  fst (read fuel h buf count
         (set_oracle (replicate (S fuel) (Fail EINTR) ++ o) w)) = OutOfFuel.
Proof.
  intros Hk He. unfold read. split; [|split].
  - unfold bind. rewrite read_retry_interrupted by exact Hk. reflexivity.
  - rewrite read_retry_unfold.
    unfold bind at 1. rewrite (bind_Ok _ _ _ _ _ (sys_read_fail _ _ _ _ _ _)).
    destruct e; try congruence; reflexivity.
  - unfold bind.
    pose proof (read_retry_starved fuel h buf count o w) as H.
    destruct (read_retry _ _ _ _ _) as [[] ?]; simpl in *; congruence.
Qed.

Lemma read_retries_on_EINTR_only_witness :
  let h := Fd.mk 3 reg false in
  let w := snd (heap_alloc 8 (world_with (regular_file 10) [])) in
  read 2 h (mkptr 0 0) 4 (set_oracle (replicate 2 (Fail EINTR) ++ []) w)
  = read 0 h (mkptr 0 0) 4 (set_oracle [] (set_errno EINTR w)) /\
  read 2 h (mkptr 0 0) 4 (set_oracle (Fail EIO :: []) w)
  = (Throw (ReadError EIO), set_errno EIO (set_oracle [] w)) /\
  fst (read 2 h (mkptr 0 0) 4 (set_oracle (replicate 3 (Fail EINTR) ++ []) w))
  = OutOfFuel.
Proof.
  intros h w.
  apply (read_retries_on_EINTR_only 2 1 h (mkptr 0 0) 4 EIO [] w).
  - lia.
  - discriminate.
Defined.

Lemma open_retry_interrupted k fuel pth flags o w :
  (S k <= fuel)%nat ->
  open_retry fuel pth flags (set_oracle (replicate (S k) (Fail EINTR) ++ o) w)
  = open_retry (fuel - S k) pth flags (set_oracle o (set_errno EINTR w)).
Proof.
  revert fuel w. induction k as [|k IH]; intros [|fuel] w Hk; try lia;
    rewrite open_retry_unfold;
    change (replicate (S ?n) ?x ++ o) with (x :: (replicate n x ++ o));
    rewrite (bind_Ok _ _ _ _ _ (sys_open_fail _ _ _ _ _)).
  - simpl. rewrite Nat.sub_0_r. reflexivity.
  - change (open_retry fuel pth flags
              (set_oracle (replicate (S k) (Fail EINTR) ++ o) (set_errno EINTR w))
            = open_retry (fuel - S k) pth flags (set_oracle o (set_errno EINTR w))).
    rewrite IH by lia. reflexivity.
Qed.

(** X2. The constructor of [Fd] from a path retries [open] exactly on
    [EINTR].  Interrupted [k + 1] times within the budget, it behaves as
    the constructor that was never interrupted; when [open] fails with
    another [errno] it throws the open error for the path at once, and
    no descriptor was opened or closed. *)
Theorem Fd_of_path_retries_on_EINTR_only
    (fuel k : nat) (pth : string) (flags : Z) (e : errno)
    (o : list fault) (w : World) :
  (S k <= fuel)%nat ->
  e <> EINTR ->
  Fd_of_path fuel pth flags (set_oracle (replicate (S k) (Fail EINTR) ++ o) w)
  = Fd_of_path (fuel - S k) pth flags (set_oracle o (set_errno EINTR w)) /\
  Fd_of_path fuel pth flags (set_oracle (Fail e :: o) w)
  = (Throw (OpenFailed pth e), set_errno e (set_oracle o w)).
Proof.
  intros Hk He. unfold Fd_of_path. split.
  - unfold bind at 1 3. rewrite open_retry_interrupted by exact Hk. reflexivity.
  - rewrite open_retry_unfold.
    unfold bind at 1. unfold bind at 1.
    rewrite sys_open_fail.
    destruct e; try congruence; reflexivity.
Qed.

Lemma Fd_of_path_retries_on_EINTR_only_witness :
  let w := world_with (regular_file 10) [] in
  Fd_of_path 2 "/dev/null" O_WRONLY (set_oracle (replicate 2 (Fail EINTR) ++ []) w)
  = Fd_of_path 0 "/dev/null" O_WRONLY (set_oracle [] (set_errno EINTR w)) /\
  Fd_of_path 2 "/dev/null" O_WRONLY (set_oracle (Fail EMFILE :: []) w)
  = (Throw (OpenFailed "/dev/null" EMFILE), set_errno EMFILE (set_oracle [] w)).
Proof.
  intros w.
  apply (Fd_of_path_retries_on_EINTR_only 2 1 "/dev/null" O_WRONLY EMFILE [] w).
  - lia.
  - discriminate.
Defined.

(** ** What the kernel-side code leaves alone

    A property [P] that depends on the heap and on the log of
    [delete[]] only is kept by every system call but [read], and so by
    everything built from them. *)

Section HeapOnly.
Variable P : World -> Prop.
Hypothesis P_heap_only :
  forall w w', w_heap w' = w_heap w -> w_freed w' = w_freed w -> P w -> P w'.

Lemma heap_only_modify (f : World -> World) :
  (forall w, w_heap (f w) = w_heap w /\ w_freed (f w) = w_freed w) ->
  keeps P (modify f) (fun _ => True).
Proof.
  intros Hf. apply keeps_modify. intros w H.
  destruct (Hf w) as [E1 E2]. exact (P_heap_only w (f w) E1 E2 H).
Qed.

Lemma heap_only_fail_with {A} e (r : A) Q : Q r -> keeps P (fail_with e r) Q.
Proof.
  intros Hr w H. unfold fail_with. simpl. split.
  - apply (P_heap_only w); [reflexivity | reflexivity | exact H].
  - intros a [= <-]. exact Hr.
Qed.

Lemma heap_only_next_fault : keeps P next_fault (fun _ => True).
Proof.
  intros w H. rewrite next_fault_eq. simpl. split; [|trivial].
  apply (P_heap_only w); [reflexivity | reflexivity | exact H].
Qed.
End HeapOnly.

(** One step of a proof that a computation keeps a property of the
    heap. *)
Ltac heap_only_step HP :=
  first
    [ apply keeps_ret; trivial
    | apply (heap_only_fail_with _ HP); trivial
    | apply keeps_throw
    | apply keeps_out_of_fuel
    | apply keeps_gets
    | apply (heap_only_next_fault _ HP)
    | apply (heap_only_modify _ HP); intros ?; split; reflexivity
    | eapply keeps_bind; [|intros ? ?]
    | match goal with
      | |- keeps _ (match ?x with _ => _ end) _ => destruct x
      | |- keeps _ (let '(_, _) := ?x in _) _ => destruct x
      end ].

Section HeapOnlyPrograms.
Variable P : World -> Prop.
Hypothesis HP :
  forall w w', w_heap w' = w_heap w -> w_freed w' = w_freed w -> P w -> P w'.

Lemma heap_only_sys_fstat d : keeps P (sys_fstat d) (fun _ => True).
Proof. unfold sys_fstat. repeat heap_only_step HP. Qed.

Lemma heap_only_sys_open pth flags : keeps P (sys_open pth flags) (fun _ => True).
Proof. unfold sys_open. repeat heap_only_step HP. Qed.

Lemma heap_only_sys_close d : keeps P (sys_close d) (fun _ => True).
Proof. unfold sys_close. repeat heap_only_step HP. Qed.

Lemma heap_only_sys_pipe : keeps P sys_pipe (fun _ => True).
Proof. unfold sys_pipe. repeat heap_only_step HP. Qed.

Lemma heap_only_sys_lseek d offset wh :
  keeps P (sys_lseek d offset wh) (fun _ => True).
Proof. unfold sys_lseek. repeat heap_only_step HP. Qed.

Lemma heap_only_sys_splice d_in d_out len :
  keeps P (sys_splice d_in d_out len) (fun _ => True).
Proof. unfold sys_splice. repeat heap_only_step HP. Qed.

Lemma heap_only_Fd_of_fd _fd : keeps P (Fd_of_fd _fd) (fun _ => True).
Proof.
  unfold Fd_of_fd, errno_now.
  eapply keeps_bind; [apply heap_only_sys_fstat|]. intros [r m] _.
  repeat heap_only_step HP.
Qed.

Lemma heap_only_open_retry fuel pth flags :
  keeps P (open_retry fuel pth flags) (fun _ => True).
Proof.
  induction fuel as [|fuel IH]; rewrite open_retry_unfold;
    (eapply keeps_bind; [apply heap_only_sys_open|]); intros r _;
    (destruct (r =? -1); [|apply keeps_ret; trivial]);
    unfold errno_now; (eapply keeps_bind; [apply keeps_gets|]);
    intros e _; (destruct (negb (errno_eqb e EINTR)); [apply keeps_throw|]).
  - apply keeps_out_of_fuel.
  - exact IH.
Qed.

Lemma heap_only_Fd_of_path fuel pth flags :
  keeps P (Fd_of_path fuel pth flags) (fun _ => True).
Proof.
  unfold Fd_of_path, errno_now.
  eapply keeps_bind; [apply heap_only_open_retry|]. intros d _.
  eapply keeps_bind; [apply heap_only_sys_fstat|]. intros [r m] _.
  destruct (negb (r =? -1)); [apply keeps_ret; trivial|].
  eapply keeps_bind; [apply heap_only_sys_close|]. intros _ _.
  repeat heap_only_step HP.
Qed.

Lemma heap_only_Fd_dtor h : keeps P (Fd_dtor h) (fun _ => True).
Proof.
  unfold Fd_dtor. destruct (Fd.owned h); [|apply keeps_ret; trivial].
  eapply keeps_bind; [apply heap_only_sys_close|]. intros _ _.
  apply keeps_ret. trivial.
Qed.

Lemma heap_only_Pipe_new : keeps P Pipe_new (fun _ => True).
Proof.
  unfold Pipe_new, errno_now.
  eapply keeps_bind; [apply heap_only_sys_pipe|]. intros [r [p0 p1]] _.
  repeat heap_only_step HP.
Qed.

Lemma heap_only_lseek h offset wh : keeps P (lseek h offset wh) (fun _ => True).
Proof.
  unfold lseek, errno_now.
  eapply keeps_bind; [apply heap_only_sys_lseek|]. intros o _.
  repeat heap_only_step HP.
Qed.

Lemma heap_only_splice_pipe_to_null fuel h n :
  keeps P (splice_pipe_to_null fuel h n) (fun _ => True).
Proof.
  unfold splice_pipe_to_null.
  eapply keeps_bind.
  { eapply keeps_thread_local; [|apply heap_only_Fd_of_path].
    intros a w H. apply (HP w); [reflexivity | reflexivity | exact H]. }
  intros dev_null _. generalize fuel at 1. intros loop_fuel. revert n.
  induction loop_fuel as [|loop_fuel IH]; intros n;
    rewrite splice_pipe_to_null_loop_unfold;
    (destruct (0 <? n); [|apply keeps_ret; trivial]);
    (eapply keeps_bind; [apply heap_only_sys_splice|]); intros rd _;
    (destruct (negb (rd =? -1));
     [|unfold errno_now; repeat heap_only_step HP]).
  - apply keeps_out_of_fuel.
  - apply IH.
Qed.

Lemma heap_only_splice_to_null fuel h n :
  keeps P (splice_to_null fuel h n) (fun _ => True).
Proof.
  unfold splice_to_null.
  eapply keeps_bind.
  { eapply keeps_thread_local; [|apply heap_only_Fd_of_path].
    intros a w H. apply (HP w); [reflexivity | reflexivity | exact H]. }
  intros dev_null _.
  eapply keeps_bind.
  { eapply keeps_thread_local; [|apply heap_only_Pipe_new].
    intros a w H. apply (HP w); [reflexivity | reflexivity | exact H]. }
  intros p _.
  destruct (0 <? n); [|apply keeps_ret; trivial].
  eapply keeps_bind; [apply heap_only_sys_splice|]. intros rd _.
  destruct (0 <? rd).
  - eapply keeps_bind; [apply heap_only_sys_splice|]. intros written _.
    unfold errno_now. repeat heap_only_step HP.
  - unfold errno_now. repeat heap_only_step HP.
Qed.

Lemma heap_only_skip fuel h n : keeps P (skip fuel h n) (fun _ => True).
Proof.
  unfold skip. destruct (Fd.type h).
  - apply heap_only_lseek.
  - apply heap_only_splice_pipe_to_null.
  - apply heap_only_splice_to_null.
Qed.
End HeapOnlyPrograms.

Lemma same_heap_heap_only (H : list block) (F : list nat) :
  forall w w', w_heap w' = w_heap w -> w_freed w' = w_freed w ->
               (w_heap w = H /\ w_freed w = F) -> (w_heap w' = H /\ w_freed w' = F).
Proof. intros w w' -> -> E. exact E. Qed.

(** X3. [skip] neither writes to nor releases an array the program
    allocated with [new char[]]: whatever the kind of the descriptor,
    the count, the faults and the outcome, these arrays, their contents
    and the calls of [delete[]] made are after the call what they were
    before it.  The same holds for [seekoff] on every path.  (What the
    C++ runtime allocates to build an exception is not an array of the
    program and not part of [w_heap].) *)
Theorem skip_leaves_the_heap_alone
    (fuel : nat) (h : Fd.t) (n off which : Z) (way : seekdir)
    (sb : fdbuf.t) (w : World) :
  (w_heap (snd (skip fuel h n w)) = w_heap w /\
   w_freed (snd (skip fuel h n w)) = w_freed w) /\
  (w_heap (snd (snd (seekoff fuel off way which (sb, w)))) = w_heap w /\
   w_freed (snd (snd (seekoff fuel off way which (sb, w)))) = w_freed w).
Proof.
  assert (K : forall fuel h n w,
             w_heap (snd (skip fuel h n w)) = w_heap w /\
             w_freed (snd (skip fuel h n w)) = w_freed w).
  { intros fuel0 h0 n0 w0.
    exact (proj1 (heap_only_skip _ (same_heap_heap_only (w_heap w0) (w_freed w0))
                    fuel0 h0 n0 w0 (conj eq_refl eq_refl))). }
  split; [apply K|].
  unfold seekoff. destruct ((which =? ios_out) || negb (seekdir_eqb way cur)).
  - split; reflexivity.
  - unfold bind, this, gets, setg, modify, liftW, ret. simpl.
    destruct (K fuel (fdbuf.fd sb)
                (to_size_t (off - ptr_diff (fdbuf.egptr sb) (fdbuf.gptr sb))) w)
      as [E1 E2].
    destruct (skip fuel _ _ w) as [[[]| | |] w1]; simpl in *; split; assumption.
Qed.

(** ** Construction of the stream buffer *)

Lemma fdbuf_ctor_cases (mk_fd : M World Fd.t) (w : World) :
  keeps (fun w' => w_heap w' = w_heap w /\ w_freed w' = w_freed w) mk_fd
    (fun _ => True) ->
  match (h <- mk_fd ;; fdbuf_init h) w with
  | (Ok sb, w1) =>
      let b := mkptr (length (w_heap w)) 0 in
      (exists bytes, length bytes = Z.to_nat default_bufsize /\
                     w_heap w1 = w_heap w ++ [mkblock bytes true]) /\
      w_freed w1 = w_freed w /\
      fdbuf.buf sb = b /\ fdbuf.eback sb = b /\ fdbuf.gptr sb = b /\
      fdbuf.egptr sb = b /\ fdbuf.capacity sb = default_bufsize /\ fdbuf.owned sb = true
  | (_, w1) => w_heap w1 = w_heap w /\ w_freed w1 = w_freed w
  end.
Proof.
  intros K. destruct (K w (conj eq_refl eq_refl)) as [[E1 E2] _].
  unfold bind. destruct (mk_fd w) as [[h| | |] w0];
    try (split; assumption).
  unfold fdbuf_init, bind, heap_alloc, ret.
  cbn [fst snd w_heap w_freed set_heap fdbuf.buf fdbuf.eback fdbuf.gptr
       fdbuf.egptr fdbuf.capacity fdbuf.owned] in *.
  rewrite E1, E2. split.
  - exists (fresh_bytes w0 default_bufsize). split; [|reflexivity].
    unfold fresh_bytes. rewrite length_map, length_seq. reflexivity.
  - repeat split; reflexivity.
Qed.

(** X4. A constructor of the stream buffer that does not return has
    allocated no array: the descriptor handle is built before the
    buffer.  One that returns has allocated exactly one array, of 8192
    chars whose values are not determined by the program, which the
    stream owns, and starts with an empty window at the start of that
    array. *)
Theorem fdbuf_construction
    (fuel : nat) (pth : string) (_fd : Z) (w : World) :
  match fdbuf_of_path fuel pth w with
  | (Ok sb, w1) =>
      let b := mkptr (length (w_heap w)) 0 in
      (exists bytes, length bytes = Z.to_nat default_bufsize /\
                     w_heap w1 = w_heap w ++ [mkblock bytes true]) /\
      w_freed w1 = w_freed w /\
      fdbuf.buf sb = b /\ fdbuf.eback sb = b /\ fdbuf.gptr sb = b /\
      fdbuf.egptr sb = b /\ fdbuf.capacity sb = default_bufsize /\ fdbuf.owned sb = true
  | (_, w1) => w_heap w1 = w_heap w /\ w_freed w1 = w_freed w
  end /\
  match fdbuf_of_fd _fd w with
  | (Ok sb, w1) =>
      let b := mkptr (length (w_heap w)) 0 in
      (exists bytes, length bytes = Z.to_nat default_bufsize /\
                     w_heap w1 = w_heap w ++ [mkblock bytes true]) /\
      w_freed w1 = w_freed w /\
      fdbuf.buf sb = b /\ fdbuf.eback sb = b /\ fdbuf.gptr sb = b /\
      fdbuf.egptr sb = b /\ fdbuf.capacity sb = default_bufsize /\ fdbuf.owned sb = true
  | (_, w1) => w_heap w1 = w_heap w /\ w_freed w1 = w_freed w
  end.
Proof.
  split.
  - apply (fdbuf_ctor_cases (Fd_of_path fuel pth O_RDONLY) w).
    apply heap_only_Fd_of_path, same_heap_heap_only.
  - apply (fdbuf_ctor_cases (Fd_of_fd _fd) w).
    apply heap_only_Fd_of_fd, same_heap_heap_only.
Qed.

(** ** Transfers that go well *)

Lemma no_fail_hd o : no_fail o = true -> forall e, hd Proceed o <> Fail e.
Proof.
  destruct o as [|[| |e0] o]; simpl; intros H e; try discriminate.
Qed.

Lemma no_fail_tl o : no_fail o = true -> no_fail (tl o) = true.
Proof.
  destruct o as [|f o]; simpl; [trivial|]. intros H.
  apply andb_true_iff in H. apply H.
Qed.

Lemma moved_bounds f len have :
  1 <= len -> 1 <= have -> 1 <= moved f len have <= Z.min len have.
Proof. intros Hl Hh. unfold moved. destruct f; lia. Qed.


(** [splice] with a length above [SSIZE_MAX] between two open
    descriptors fails with [EINVAL] and moves nothing. *)
Lemma sys_splice_too_long d_in d_out len w ep_in ep_out :
  w_fds w !! d_in = Some ep_in ->
  w_fds w !! d_out = Some ep_out ->
  two63 <= len ->
  (forall e, hd Proceed (w_oracle w) <> Fail e) ->
  sys_splice d_in d_out len w =
  (Ok (-1), set_errno EINVAL (set_oracle (tl (w_oracle w)) w)).
Proof.
  intros Hi Ho Hl Hf. unfold sys_splice, bind. rewrite next_fault_eq.
  assert (El : (two63 <=? len) = true) by (apply Z.leb_le; exact Hl).
  destruct (hd Proceed (w_oracle w)) as [|k|e];
    try (exfalso; apply (Hf e); reflexivity);
    cbn [fst snd]; unfold bind, gets, fail_with; cbn [fst snd w_fds set_oracle];
    rewrite Hi, Ho, El; reflexivity.
Qed.

Lemma sys_splice_fifo_null d dn len w mode data pos :
  w_fds w !! d = Some (EData mode data pos) ->
  w_fds w !! dn = Some ENull ->
  Z.land mode S_IFMT = S_IFIFO ->
  len < two63 ->
  (forall e, hd Proceed (w_oracle w) <> Fail e) ->
  sys_splice d dn len w =
  (Ok (moved (hd Proceed (w_oracle w)) len (avail data pos)),
   set_fds (<[d := EData mode data
                     (pos + moved (hd Proceed (w_oracle w)) len (avail data pos))]>
              (w_fds w))
     (set_oracle (tl (w_oracle w)) w)).
Proof.
  intros Hd Hn Hm Hl Hf. unfold sys_splice, bind. rewrite next_fault_eq.
  assert (El : (two63 <=? len) = false) by (apply Z.leb_gt; exact Hl).
  destruct (hd Proceed (w_oracle w)) as [|k|e];
    try (exfalso; apply (Hf e); reflexivity);
    cbn [fst snd]; unfold bind, gets, modify, ret; cbn [fst snd w_fds set_oracle];
    rewrite Hd, Hn, El, Hm, Z.eqb_refl; reflexivity.
Qed.

Lemma splice_pipe_to_null_loop_drains fuel h dn :
  forall n w mode data pos,
    (Z.to_nat n <= fuel)%nat ->
    0 <= n < two63 ->
    0 <= pos ->
    pos + n <= Z.of_nat (length data) ->
    w_fds w !! Fd.fd h = Some (EData mode data pos) ->
    w_fds w !! Fd.fd dn = Some ENull ->
    Z.land mode S_IFMT = S_IFIFO ->
    no_fail (w_oracle w) = true ->
    fst (splice_pipe_to_null_loop fuel h dn n w) = Ok tt /\
    fd_pos (snd (splice_pipe_to_null_loop fuel h dn n w)) (Fd.fd h) = Some (pos + n).
Proof.
  induction fuel as [|fuel IH]; intros n w mode data pos Hfuel Hn Hp Hlen Hd Hdn Hm Ho;
    rewrite splice_pipe_to_null_loop_unfold;
    (destruct (Z.ltb_spec 0 n) as [Hpos|Hz];
     [| assert (n = 0) as -> by lia; simpl; unfold fd_pos; rewrite Hd;
        split; [reflexivity | f_equal; lia] ]).
  - lia.
  - assert (Hne : Fd.fd h <> Fd.fd dn) by (intros E; rewrite E, Hdn in Hd; discriminate).
    rewrite (bind_Ok _ _ _ _ _
               (sys_splice_fifo_null _ _ n w mode data pos Hd Hdn Hm
                  ltac:(lia) (no_fail_hd _ Ho))).
    set (k := moved (hd Proceed (w_oracle w)) n (avail data pos)).
    assert (Hk : 1 <= k <= Z.min n (avail data pos))
      by (apply moved_bounds; unfold avail; lia).
    unfold avail in Hk.
    replace (k =? -1) with false by (symmetry; apply Z.eqb_neq; lia).
    cbv beta iota delta [negb].
    rewrite to_size_t_small by (int_consts; lia).
    match goal with
    | |- context [splice_pipe_to_null_loop fuel h dn (n - k) ?w1] =>
        destruct (IH (n - k) w1 mode data (pos + k)) as [E1 E2];
          try lia; try exact Hm
    end.
    + simpl. apply lookup_insert_eq.
    + simpl. rewrite lookup_insert_ne by exact Hne. exact Hdn.
    + simpl. apply no_fail_tl, Ho.
    + rewrite E1, E2. split; [reflexivity | f_equal; lia].
Qed.

(** A [thread_local] object that was built is handed out as it is. *)
Lemma thread_local_ready {A} get set (init : M World A) w a :
  get w = Some a -> thread_local get set init w = (Ok a, w).
Proof.
  intros E. unfold thread_local, bind, gets. rewrite E. reflexivity.
Qed.

(** X5. [skip] on a FIFO, once the null device of the thread is there
    and no system call fails.  For a count [n] that [splice] accepts
    ([n <= SSIZE_MAX]) and a FIFO that still holds at least [n] bytes,
    it discards exactly [n] of them and returns, however the kernel
    cuts the transfers short: the loop goes on after every partial
    transfer, and a budget of [n] iterations is enough, as each
    transfer moves a byte at least.  For a count above [SSIZE_MAX] the
    first [splice] is rejected and [skip] throws with nothing
    discarded. *)
Theorem skip_fifo_discards_exactly_n
    (fuel : nat) (h dn : Fd.t) (n : Z) (w : World)
    (mode : Z) (data : list byte) (pos : Z) :
  Fd.type h = fifo ->
  tl_fifo_dev_null w = Some dn ->
  w_fds w !! Fd.fd h = Some (EData mode data pos) ->
  w_fds w !! Fd.fd dn = Some ENull ->
  Z.land mode S_IFMT = S_IFIFO ->
  no_fail (w_oracle w) = true ->
  0 <= pos ->
  (0 <= n < two63 -> pos + n <= Z.of_nat (length data) ->
   (Z.to_nat n <= fuel)%nat ->
   fst (skip fuel h n w) = Ok tt /\
   fd_pos (snd (skip fuel h n w)) (Fd.fd h) = Some (pos + n)) /\
  (two63 <= n ->
   fst (skip fuel h n w) = Throw (SplicePipeToNullFailed EINVAL) /\
   fd_pos (snd (skip fuel h n w)) (Fd.fd h) = Some pos).
Proof.
  intros Ht Htl Hd Hdn Hm Ho Hp.
  unfold skip. rewrite Ht. unfold splice_pipe_to_null.
  rewrite (bind_Ok _ _ _ _ _ (thread_local_ready _ _ _ w dn Htl)).
  split.
  - intros Hn Hlen Hfuel.
    apply (splice_pipe_to_null_loop_drains fuel h dn n w mode data pos); assumption.
  - intros Hn. rewrite splice_pipe_to_null_loop_unfold.
    replace (0 <? n) with true by (symmetry; apply Z.ltb_lt; int_consts; lia).
    rewrite (bind_Ok _ _ _ _ _
               (sys_splice_too_long _ _ n w _ _ Hd Hdn Hn (no_fail_hd _ Ho))).
    cbn. unfold fd_pos. cbn. rewrite Hd. split; reflexivity.
Qed.

Lemma skip_fifo_discards_exactly_n_witness :
  let h := Fd.mk 3 fifo false in
  let w := set_oracle [Short 2; Short 1; Proceed]
             (snd (skip 0 h 0 (world_with (fifo_end 10) []))) in
  (fst (skip 5 h 5 w) = Ok tt /\
   fd_pos (snd (skip 5 h 5 w)) (Fd.fd h) = Some (0 + 5)) /\
  (fst (skip 5 h (2 ^ 64 - 5) w) = Throw (SplicePipeToNullFailed EINVAL) /\
   fd_pos (snd (skip 5 h (2 ^ 64 - 5) w)) (Fd.fd h) = Some 0).
Proof.
  intros h w.
  destruct (skip_fifo_discards_exactly_n 5 h (Fd.mk 4 other true) 5 w
              (Z.lor S_IFIFO 384) (bytes_from 0 10) 0) as [H1 _];
    try (vm_compute; reflexivity); try lia.
  destruct (skip_fifo_discards_exactly_n 5 h (Fd.mk 4 other true) (2 ^ 64 - 5) w
              (Z.lor S_IFIFO 384) (bytes_from 0 10) 0) as [_ H2];
    try (vm_compute; reflexivity); try lia.
  split.
  - apply H1; [int_consts; lia | vm_compute; discriminate | lia].
  - apply H2. int_consts; lia.
Defined.

(** ** The two-hop transfer *)





(** ** Slices, loads and stores *)

Lemma slice_length (data : list byte) pos k :
  0 <= pos -> 0 <= k -> pos + k <= Z.of_nat (length data) ->
  Z.of_nat (length (slice data pos k)) = k.
Proof.
  intros Hp Hk Hl. unfold slice. rewrite length_take, length_drop. lia.
Qed.

Lemma slice_nil (data : list byte) pos : slice data pos 0 = [].
Proof. reflexivity. Qed.

Lemma slice_app (data : list byte) pos a b :
  0 <= pos -> 0 <= a -> 0 <= b ->
  slice data pos a ++ slice data (pos + a) b = slice data pos (a + b).
Proof.
  intros Hp Ha Hb. unfold slice.
  rewrite !Z2Nat.inj_add by lia.
  rewrite <- drop_drop. apply take_take_drop.
Qed.

Lemma slice_prefix (X Y : list byte) g p L a :
  slice X g L = slice Y p L -> 0 <= a <= L ->
  slice X g a = slice Y p a.
Proof.
  intros E Ha. unfold slice in *.
  replace (Z.to_nat a) with (Nat.min (Z.to_nat a) (Z.to_nat L)) by lia.
  rewrite <- !take_take. rewrite E. reflexivity.
Qed.

Lemma slice_suffix (X Y : list byte) g p L a :
  slice X g L = slice Y p L -> 0 <= g -> 0 <= p -> 0 <= a <= L ->
  slice X (g + a) (L - a) = slice Y (p + a) (L - a).
Proof.
  intros E Hg Hp Ha. unfold slice in *.
  rewrite !Z2Nat.inj_add by lia. rewrite <- !drop_drop.
  rewrite (take_drop_commute (drop (Z.to_nat g) X)),
          (take_drop_commute (drop (Z.to_nat p) Y)).
  replace (Z.to_nat a + Z.to_nat (L - a))%nat with (Z.to_nat L) by lia.
  rewrite E. reflexivity.
Qed.

Lemma slice_stored (B bs : list byte) o :
  0 <= o -> o <= Z.of_nat (length B) ->
  slice (take (Z.to_nat o) B ++ bs ++ drop (Z.to_nat o + length bs) B) o
    (Z.of_nat (length bs)) = bs.
Proof.
  intros Ho Hl. unfold slice.
  rewrite drop_app_length' by (rewrite length_take; lia).
  rewrite Nat2Z.id. apply take_app_length.
Qed.

Lemma stored_length (B bs : list byte) o :
  (o + length bs <= length B)%nat ->
  length (take o B ++ bs ++ drop (o + length bs) B) = length B.
Proof.
  intros H. rewrite !length_app, length_take, length_drop. lia.
Qed.

Lemma heap_load_ok p n w bytes :
  w_heap w !! blk p = Some (mkblock bytes true) ->
  0 <= off p -> 0 < n -> off p + n <= Z.of_nat (length bytes) ->
  heap_load p n w = (Ok (slice bytes (off p) n), w).
Proof.
  intros Hb Ho Hn Hl. unfold heap_load.
  replace (n <=? 0) with false by (symmetry; apply Z.leb_gt; lia).
  rewrite Hb. cbn [b_bytes b_live negb].
  replace (off p <? 0) with false by (symmetry; apply Z.ltb_ge; lia).
  replace (Z.of_nat (length bytes) <? off p + n) with false
    by (symmetry; apply Z.ltb_ge; lia).
  reflexivity.
Qed.

Lemma heap_store_nonempty p bs w :
  bs <> [] ->
  heap_store p bs w =
  match w_heap w !! blk p with
  | None => (Undefined OutOfBounds, w)
  | Some b =>
      if negb (b_live b) then (Undefined UseAfterFree, w)
      else if (off p <? 0)
              || (Z.of_nat (length (b_bytes b)) <? off p + Z.of_nat (length bs))
      then (Undefined OutOfBounds, w)
      else
        (Ok tt,
         set_heap
           (<[blk p := mkblock
                         (take (Z.to_nat (off p)) (b_bytes b) ++ bs ++
                          drop (Z.to_nat (off p) + length bs) (b_bytes b)) true]>
              (w_heap w)) w)
  end.
Proof. destruct bs; [congruence | reflexivity]. Qed.

(** A store that fits a live block changes that block only, and keeps
    its size. *)
Lemma heap_store_ok p bs w bytes :
  w_heap w !! blk p = Some (mkblock bytes true) ->
  0 <= off p -> off p + Z.of_nat (length bs) <= Z.of_nat (length bytes) ->
  exists w' bytes',
    heap_store p bs w = (Ok tt, w') /\
    w_heap w' !! blk p = Some (mkblock bytes' true) /\
    length bytes' = length bytes /\
    slice bytes' (off p) (Z.of_nat (length bs)) = bs /\
    w_fds w' = w_fds w /\ w_oracle w' = w_oracle w /\ w_pipes w' = w_pipes w.
Proof.
  intros Hb Ho Hl. destruct (decide (bs = [])) as [->|Hne].
  - exists w, bytes. repeat split; try reflexivity. exact Hb.
  - rewrite (heap_store_nonempty p bs w Hne), Hb. cbn [b_bytes b_live negb].
    replace (off p <? 0) with false by (symmetry; apply Z.ltb_ge; lia).
    replace (Z.of_nat (length bytes) <? off p + Z.of_nat (length bs))
      with false by (symmetry; apply Z.ltb_ge; lia).
    cbv beta iota zeta delta [orb].
    eexists. eexists. split; [reflexivity|].
    split.
    { cbn [w_heap set_heap]. apply list_lookup_insert_eq.
      apply lookup_lt_Some in Hb. exact Hb. }
    split; [apply stored_length; lia|].
    split; [apply slice_stored; lia|].
    repeat split.
Qed.

(** ** Reading through the buffer *)

Lemma moved_range f len have :
  0 <= len -> 0 <= have ->
  0 <= moved f len have <= Z.min len have /\
  (moved f len have = 0 <-> len = 0 \/ have = 0).
Proof. intros Hl Hh. unfold moved. destruct f; lia. Qed.

Lemma sys_read_data d buf count w mode data pos bytes :
  w_fds w !! d = Some (EData mode data pos) ->
  no_fail (w_oracle w) = true ->
  w_heap w !! blk buf = Some (mkblock bytes true) ->
  0 <= off buf -> 0 <= pos -> 0 <= count < two63 ->
  off buf + count <= Z.of_nat (length bytes) ->
  let k := moved (hd Proceed (w_oracle w)) count (avail data pos) in
  exists w' bytes',
    sys_read d buf count w = (Ok k, w') /\
    w_heap w' !! blk buf = Some (mkblock bytes' true) /\
    length bytes' = length bytes /\
    slice bytes' (off buf) k = slice data pos k /\
    w_fds w' !! d = Some (EData mode data (pos + k)) /\
    w_oracle w' = tl (w_oracle w).
Proof.
  intros Hd Ho Hb Hob Hp [Hc Hc'] Hl k.
  assert (El : (two63 <=? count) = false) by (apply Z.leb_gt; exact Hc').
  assert (Ha : 0 <= avail data pos) by (unfold avail; lia).
  destruct (moved_range (hd Proceed (w_oracle w)) count (avail data pos) Hc Ha)
    as [Hk _]. fold k in Hk.
  assert (Hsl : Z.of_nat (length (slice data pos k)) = k).
  { unfold slice. rewrite length_take, length_drop. unfold avail in Hk. lia. }
  destruct (heap_store_ok buf (slice data pos k) (set_oracle (tl (w_oracle w)) w) bytes)
    as (w1 & bytes' & Hs & Hb1 & Hlen & Hsl1 & Hf1 & Ho1 & _);
    [exact Hb | exact Hob | lia |].
  rewrite Hsl in Hsl1.
  exists (set_fds (<[d := EData mode data (pos + k)]> (w_fds w1)) w1), bytes'.
  split; [|split; [exact Hb1|]; split; [exact Hlen|]; split; [exact Hsl1|];
           split; [apply lookup_insert_eq | exact Ho1]].
  unfold sys_read. unfold bind at 1. rewrite next_fault_eq.
  pose proof (no_fail_hd _ Ho) as Hf.
  subst k.
  destruct (hd Proceed (w_oracle w)) as [|s|e];
    try (exfalso; apply (Hf e); reflexivity);
    unfold bind at 1; unfold gets; cbn [w_fds set_oracle]; rewrite Hd, El;
    rewrite (bind_Ok _ _ _ _ _ Hs); reflexivity.
Qed.

Lemma liftW_Ok {A} (m : M World A) sb w a w1 :
  m w = (Ok a, w1) -> liftW m (sb, w) = (Ok a, (sb, w1)).
Proof. intros E. unfold liftW. simpl. rewrite E. reflexivity. Qed.

Lemma ptr_eqb_add b k : ptr_eqb b (ptr_add b k) = (k =? 0).
Proof.
  unfold ptr_eqb, ptr_add. simpl. rewrite Nat.eqb_refl. simpl.
  destruct (Z.eqb_spec (off b) (off b + k)), (Z.eqb_spec k 0); try reflexivity; lia.
Qed.

Lemma ptr_eqb_true p q : ptr_eqb p q = true -> blk p = blk q /\ off p = off q.
Proof.
  unfold ptr_eqb. intros H. apply andb_true_iff in H. destruct H as [H1 H2].
  apply Nat.eqb_eq in H1. apply Z.eqb_eq in H2. split; assumption.
Qed.

Lemma to_int_type_not_eof b : (to_int_type b =? eof) = false.
Proof. apply Z.eqb_neq. unfold to_int_type, eof. lia. Qed.

Lemma read_data fuel h buf count w mode data pos bytes :
  w_fds w !! Fd.fd h = Some (EData mode data pos) ->
  no_fail (w_oracle w) = true ->
  w_heap w !! blk buf = Some (mkblock bytes true) ->
  0 <= off buf -> 0 <= pos -> 0 <= count < two63 ->
  off buf + count <= Z.of_nat (length bytes) ->
  let k := moved (hd Proceed (w_oracle w)) count (avail data pos) in
  exists w' bytes',
    read fuel h buf count w = (Ok k, w') /\
    w_heap w' !! blk buf = Some (mkblock bytes' true) /\
    length bytes' = length bytes /\
    slice bytes' (off buf) k = slice data pos k /\
    w_fds w' !! Fd.fd h = Some (EData mode data (pos + k)) /\
    w_oracle w' = tl (w_oracle w).
Proof.
  intros Hd Ho Hb Hob Hp Hc Hl k.
  destruct (sys_read_data (Fd.fd h) buf count w mode data pos bytes)
    as (w' & bytes' & Hs & H); try assumption; try lia.
  fold k in Hs.
  assert (Ha : 0 <= avail data pos) by (unfold avail; lia).
  destruct (moved_range (hd Proceed (w_oracle w)) count (avail data pos))
    as [Hk _]; try lia. fold k in Hk.
  exists w', bytes'. split; [|exact H].
  unfold read. rewrite read_retry_unfold.
  unfold bind at 1. rewrite (bind_Ok _ _ _ _ _ Hs).
  replace (k =? -1) with false by (symmetry; apply Z.eqb_neq; lia).
  unfold ret. rewrite to_size_t_small by (int_consts; lia). reflexivity.
Qed.

(** The byte of the source at offset [p], as [underflow] returns it. *)
Lemma head_slice_one (data : list byte) p :
  0 <= p -> head (slice data p 1) = data !! Z.to_nat p.
Proof.
  intros Hp. unfold slice. rewrite head_lookup.
  rewrite lookup_take_lt by (change (Z.to_nat 1) with 1%nat; lia).
  rewrite lookup_drop. f_equal. lia.
Qed.

Lemma peek_at_end (data : list byte) p :
  0 <= p -> avail data p = 0 ->
  default eof (to_int_type <$> data !! Z.to_nat p) = eof.
Proof.
  intros Hp Ha. unfold avail in Ha.
  rewrite lookup_ge_None_2 by lia. reflexivity.
Qed.

Lemma peek_inside (data : list byte) p :
  0 <= p -> avail data p <> 0 ->
  default eof (to_int_type <$> data !! Z.to_nat p)
  = to_int_type (default x00 (head (slice data p 1))).
Proof.
  intros Hp Ha. unfold avail in Ha. rewrite head_slice_one by exact Hp.
  destruct (lookup_lt_is_Some_2 data (Z.to_nat p)) as [x ->]; [lia|].
  reflexivity.
Qed.

(** A refill: with the window empty, [underflow] reads once into the
    buffer and leaves the stream where it was, with what was read as
    the window; it returns [eof] exactly when nothing was left, and the
    byte at the position of the stream otherwise. *)
Lemma underflow_refill fuel mode data p sb w :
  stream_at mode data p (sb, w) ->
  ptr_eqb (fdbuf.gptr sb) (fdbuf.egptr sb) = true ->
  let b := fdbuf.buf sb in
  let k := moved (hd Proceed (w_oracle w)) (fdbuf.capacity sb) (avail data p) in
  let sb1 := fdbuf.mk b b (ptr_add b k) (fdbuf.fd sb) b (fdbuf.capacity sb)
               (fdbuf.owned sb) in
  exists v w1,
    underflow fuel (sb, w) = (Ok v, (sb1, w1)) /\
    stream_at mode data p (sb1, w1) /\
    (v =? eof) = (k =? 0) /\
    0 <= k /\ (k = 0 <-> avail data p = 0) /\
    v = default eof (to_int_type <$> data !! Z.to_nat p).
Proof.
  intros (Hp & Hcap & Ho & Hd & bytes & Hb & Hob & Hlen & Hwin) He b k sb1.
  simpl in Hp, Hcap, Ho, Hd, Hb, Hob, Hlen.
  assert (Hwl : window_len sb = 0).
  { destruct (ptr_eqb_true _ _ He) as [_ E]. unfold window_len, ptr_diff. lia. }
  rewrite Hwl, Z.add_0_r in Hd.
  destruct (read_data fuel (fdbuf.fd sb) b (fdbuf.capacity sb) w mode data p bytes)
    as (w1 & bytes' & Hr & Hb1 & Hl1 & Hs1 & Hd1 & Ho1);
    try assumption; try (int_consts; lia).
  fold k in Hr, Hs1, Hd1.
  assert (Ha : 0 <= avail data p) by (unfold avail; lia).
  destruct (moved_range (hd Proceed (w_oracle w)) (fdbuf.capacity sb) (avail data p))
    as [Hk Hk0]; try lia. fold k in Hk, Hk0.
  assert (Hrep : stream_at mode data p (sb1, w1)).
  { split; [exact Hp|]. split; [exact Hcap|].
    split; [simpl; rewrite Ho1; apply no_fail_tl, Ho|].
    split.
    { simpl. replace (window_len sb1) with k
        by (unfold window_len, ptr_diff, sb1; simpl; lia).
      exact Hd1. }
    exists bytes'. simpl. split; [exact Hb1|]. split; [exact Hob|].
    split; [rewrite Hl1; exact Hlen|].
    destruct (Z.eq_dec k 0) as [Hz|Hz].
    - left. rewrite ptr_eqb_add. apply Z.eqb_eq. exact Hz.
    - right. unfold window_len, ptr_diff. simpl.
      replace (off b + k - off b) with k by lia.
      repeat split; try lia. exact Hs1. }
  assert (Hstep : underflow fuel (sb, w) =
                  (if k =? 0 then ret eof
                   else c <- liftW (heap_load b 1) ;;
                        ret (to_int_type (default x00 (head c)))) (sb1, w1)).
  { unfold underflow.
    rewrite (bind_Ok _ _ (sb, w) sb (sb, w)) by reflexivity.
    rewrite He.
    unfold bind at 1.
    rewrite (bind_Ok _ _ _ _ _ (liftW_Ok _ sb w _ _ Hr)).
    change (setg (fdbuf.buf sb) (fdbuf.buf sb) (ptr_add (fdbuf.buf sb) k) (sb, w1))
      with (Ok tt, (sb1, w1)).
    cbv beta iota.
    rewrite (bind_Ok _ _ (sb1, w1) sb1 (sb1, w1)) by reflexivity.
    change (fdbuf.gptr sb1) with b. change (fdbuf.egptr sb1) with (ptr_add b k).
    rewrite ptr_eqb_add. reflexivity. }
  destruct (Z.eqb_spec k 0) as [Hz|Hz].
  - exists eof, w1. rewrite Hstep.
    split; [reflexivity|]. split; [exact Hrep|]. split; [reflexivity|].
    assert (Hav : avail data p = 0)
      by (destruct Hk0 as [H1 _]; destruct (H1 Hz); [lia | assumption]).
    split; [lia|]. split; [split; [intros _; exact Hav | intros _; exact Hz]|].
    symmetry. apply peek_at_end; assumption.
  - assert (Hload : heap_load b 1 w1 = (Ok (slice bytes' (off b) 1), w1)).
    { apply heap_load_ok; try assumption; unfold b; lia. }
    eexists. exists w1. rewrite Hstep.
    rewrite (bind_Ok _ _ _ _ _ (liftW_Ok _ sb1 w1 _ _ Hload)).
    split; [reflexivity|]. split; [exact Hrep|].
    split; [apply to_int_type_not_eof|].
    assert (Hav : avail data p <> 0)
      by (intros H; apply Hz, Hk0; right; exact H).
    split; [lia|]. split; [split; [intros; lia | intros H; destruct (Hav H)]|].
    rewrite (peek_inside data p Hp Hav).
    rewrite (slice_prefix bytes' data (off b) p k 1 Hs1) by lia. reflexivity.
Qed.

Lemma xsgetn_loop_unfold fuel loop_fuel n rem s :
  xsgetn_loop fuel loop_fuel n rem s =
  (if 0 <? rem then
     sb <- this ;;
     at_eof <- (if ptr_eqb (fdbuf.gptr sb) (fdbuf.egptr sb) then
                  c <- underflow fuel ;; ret (c =? eof)
                else ret false) ;;
     if at_eof : bool then ret (n - rem, s)
     else
       sb <- this ;;
       let avail := ptr_diff (fdbuf.egptr sb) (fdbuf.gptr sb) in
       let amt := Z.min rem avail in
       bs <- liftW (heap_load (fdbuf.gptr sb) amt) ;;
       setg (fdbuf.eback sb) (ptr_add (fdbuf.gptr sb) amt) (fdbuf.egptr sb) ;;;
       match loop_fuel with
       | O => out_of_fuel
       | S loop_fuel' => xsgetn_loop fuel loop_fuel' n (rem - amt) (s ++ bs)
       end
   else ret (n - rem, s)).
Proof. destruct loop_fuel; reflexivity. Qed.

(** One round of the loop of [xsgetn] on a window that holds bytes: it
    copies from the window, without a system call, and goes round. *)
Lemma xsgetn_round fuel loop_fuel n rem s mode data p sb w :
  stream_at mode data p (sb, w) ->
  ptr_eqb (fdbuf.gptr sb) (fdbuf.egptr sb) = false ->
  0 < rem ->
  let amt := Z.min rem (window_len sb) in
  let sb2 := fdbuf.mk (fdbuf.eback sb) (ptr_add (fdbuf.gptr sb) amt) (fdbuf.egptr sb)
               (fdbuf.fd sb) (fdbuf.buf sb) (fdbuf.capacity sb) (fdbuf.owned sb) in
  1 <= amt /\
  p + window_len sb <= Z.of_nat (length data) /\
  stream_at mode data (p + amt) (sb2, w) /\
  xsgetn_loop fuel loop_fuel n rem s (sb, w) =
  match loop_fuel with
  | O => (OutOfFuel, (sb2, w))
  | S loop_fuel' =>
      xsgetn_loop fuel loop_fuel' n (rem - amt) (s ++ slice data p amt) (sb2, w)
  end.
Proof.
  intros (Hp & Hcap & Ho & Hd & bytes & Hb & Hob & Hlen & Hwin) He Hrem amt sb2.
  simpl in Hp, Hcap, Ho, Hd, Hb, Hob, Hlen, Hwin.
  destruct Hwin as [Hwin|(Hbg & Hbe & Hg1 & Hg2 & Hg3 & Hsl)]; [congruence|].
  set (L := window_len sb) in *.
  assert (HL : L = off (fdbuf.egptr sb) - off (fdbuf.gptr sb)) by reflexivity.
  assert (Hamt : 1 <= amt <= L) by (unfold amt; lia).
  assert (Hin : p + L <= Z.of_nat (length data)).
  { assert (E : length (slice bytes (off (fdbuf.gptr sb)) L)
                = length (slice data p L)) by (rewrite Hsl; reflexivity).
    unfold slice in E. rewrite !length_take, !length_drop in E. lia. }
  assert (Hload : heap_load (fdbuf.gptr sb) amt w = (Ok (slice data p amt), w)).
  { rewrite (heap_load_ok (fdbuf.gptr sb) amt w bytes);
      [| rewrite Hbg; exact Hb | lia | lia | lia].
    rewrite (slice_prefix bytes data _ p L amt Hsl) by lia. reflexivity. }
  split; [lia|]. split; [exact Hin|]. split.
  - split; [lia|]. split; [exact Hcap|]. split; [exact Ho|]. split.
    { simpl. replace (p + amt + window_len sb2) with (p + L)
        by (unfold window_len, ptr_diff, sb2; simpl; lia).
      exact Hd. }
    exists bytes. simpl. split; [exact Hb|]. split; [exact Hob|].
    split; [exact Hlen|].
    destruct (Z.eq_dec amt L) as [E|E].
    + left. unfold ptr_eqb, ptr_add. simpl.
      rewrite Hbg, Hbe, Nat.eqb_refl. simpl. apply Z.eqb_eq. lia.
    + right. unfold window_len, ptr_diff. simpl.
      replace (off (fdbuf.egptr sb) - (off (fdbuf.gptr sb) + amt)) with (L - amt)
        by lia.
      split; [exact Hbg|]. split; [exact Hbe|].
      split; [lia|]. split; [lia|]. split; [lia|].
      apply (slice_suffix bytes data _ p L amt Hsl); lia.
  - rewrite xsgetn_loop_unfold.
    replace (0 <? rem) with true by (symmetry; apply Z.ltb_lt; exact Hrem).
    rewrite (bind_Ok _ _ (sb, w) sb (sb, w)) by reflexivity.
    rewrite He.
    rewrite (bind_Ok _ _ (sb, w) false (sb, w)) by reflexivity.
    cbv iota.
    rewrite (bind_Ok _ _ (sb, w) sb (sb, w)) by reflexivity.
    cbv zeta. fold (window_len sb). fold L. fold amt.
    rewrite (bind_Ok _ _ _ _ _ (liftW_Ok _ sb w _ _ Hload)).
    rewrite (bind_Ok _ _ (sb, w) tt (sb2, w)) by reflexivity.
    destruct loop_fuel; reflexivity.
Qed.

Lemma to_come_split data p rem amt :
  0 <= p -> 1 <= amt <= rem -> p + amt <= Z.of_nat (length data) ->
  amt + to_come data (p + amt) (rem - amt) = to_come data p rem.
Proof. intros Hp Ha Hl. unfold to_come. lia. Qed.

Lemma xsgetn_loop_reads fuel mode data :
  forall loop_fuel n rem s sb w p,
    stream_at mode data p (sb, w) ->
    0 <= rem ->
    (Z.to_nat rem <= loop_fuel)%nat ->
    exists c bs st,
      xsgetn_loop fuel loop_fuel n rem s (sb, w) = (Ok (c, bs), st) /\
      c = n - rem + to_come data p rem /\
      bs = s ++ slice data p (to_come data p rem) /\
      stream_at mode data (p + to_come data p rem) st.
Proof.
  assert (Hnonempty :
    forall loop_fuel,
      (forall n rem s sb w p,
         stream_at mode data p (sb, w) -> 0 <= rem ->
         (Z.to_nat rem <= loop_fuel)%nat ->
         exists c bs st,
           xsgetn_loop fuel loop_fuel n rem s (sb, w) = (Ok (c, bs), st) /\
           c = n - rem + to_come data p rem /\
           bs = s ++ slice data p (to_come data p rem) /\
           stream_at mode data (p + to_come data p rem) st) ->
      forall n rem s sb w p,
        stream_at mode data p (sb, w) ->
        ptr_eqb (fdbuf.gptr sb) (fdbuf.egptr sb) = false ->
        0 < rem -> (Z.to_nat rem <= S loop_fuel)%nat ->
        exists c bs st,
          xsgetn_loop fuel (S loop_fuel) n rem s (sb, w) = (Ok (c, bs), st) /\
          c = n - rem + to_come data p rem /\
          bs = s ++ slice data p (to_come data p rem) /\
          stream_at mode data (p + to_come data p rem) st).
  { intros loop_fuel IH n rem s sb w p Hrep He Hrem Hfuel.
    destruct (xsgetn_round fuel (S loop_fuel) n rem s mode data p sb w Hrep He Hrem)
      as (Hamt & Hin & Hrep2 & Hstep).
    set (amt := Z.min rem (window_len sb)) in *.
    assert (Hp : 0 <= p) by apply Hrep.
    destruct (IH n (rem - amt) (s ++ slice data p amt) _ w (p + amt) Hrep2)
      as (c & bs & st & Hrun & Hc & Hbs & Hst); try lia.
    exists c, bs, st. rewrite Hstep.
    assert (Hsplit : amt + to_come data (p + amt) (rem - amt) = to_come data p rem)
      by (apply to_come_split; lia).
    assert (Htc : 0 <= to_come data (p + amt) (rem - amt))
      by (unfold to_come; lia).
    split; [exact Hrun|]. split; [lia|]. split.
    - rewrite Hbs, <- app_assoc, slice_app by lia. rewrite Hsplit. reflexivity.
    - rewrite <- Hsplit, Z.add_assoc. exact Hst. }
  induction loop_fuel as [|loop_fuel IH]; intros n rem s sb w p Hrep Hrem Hfuel.
  - assert (rem = 0) as -> by lia.
    exists (n - 0), s, (sb, w). rewrite xsgetn_loop_unfold. simpl.
    assert (Hp : 0 <= p) by apply Hrep.
    assert (E : to_come data p 0 = 0) by (unfold to_come; lia).
    rewrite E, slice_nil, app_nil_r, !Z.add_0_r.
    split; [reflexivity|]. split; [reflexivity|]. split; [reflexivity|]. exact Hrep.
  - destruct (Z.eq_dec rem 0) as [->|Hne].
    { exists (n - 0), s, (sb, w). rewrite xsgetn_loop_unfold. simpl.
      assert (Hp : 0 <= p) by apply Hrep.
      assert (E : to_come data p 0 = 0) by (unfold to_come; lia).
      rewrite E, slice_nil, app_nil_r, !Z.add_0_r.
      split; [reflexivity|]. split; [reflexivity|]. split; [reflexivity|]. exact Hrep. }
    destruct (ptr_eqb (fdbuf.gptr sb) (fdbuf.egptr sb)) eqn:He.
    + destruct (underflow_refill fuel mode data p sb w Hrep He)
        as (v & w1 & Hu & Hrep1 & Hv & Hk & Hk0 & _).
      set (k := moved (hd Proceed (w_oracle w)) (fdbuf.capacity sb) (avail data p)) in *.
      set (sb1 := fdbuf.mk _ _ _ _ _ _ _) in *.
      assert (Hp : 0 <= p) by apply Hrep.
      destruct (Z.eq_dec k 0) as [Hz|Hz].
      * exists (n - rem), s, (sb1, w1). rewrite xsgetn_loop_unfold.
        replace (0 <? rem) with true by (symmetry; apply Z.ltb_lt; lia).
        rewrite (bind_Ok _ _ (sb, w) sb (sb, w)) by reflexivity.
        rewrite He.
        unfold bind at 1. unfold bind at 1. rewrite Hu.
        replace (v =? eof) with true by (rewrite Hv; symmetry; apply Z.eqb_eq; exact Hz).
        assert (E : to_come data p rem = 0).
        { apply Hk0 in Hz. unfold to_come, avail in *. lia. }
        rewrite E, slice_nil, app_nil_r, !Z.add_0_r.
        split; [reflexivity|]. split; [reflexivity|]. split; [reflexivity|]. exact Hrep1.
      * assert (He1 : ptr_eqb (fdbuf.gptr sb1) (fdbuf.egptr sb1) = false).
        { unfold sb1. simpl. rewrite ptr_eqb_add. apply Z.eqb_neq. exact Hz. }
        assert (Hsame : xsgetn_loop fuel (S loop_fuel) n rem s (sb, w)
                        = xsgetn_loop fuel (S loop_fuel) n rem s (sb1, w1)).
        { rewrite !(xsgetn_loop_unfold fuel (S loop_fuel)).
          replace (0 <? rem) with true by (symmetry; apply Z.ltb_lt; lia).
          rewrite (bind_Ok _ _ (sb, w) sb (sb, w)) by reflexivity.
          rewrite (bind_Ok _ _ (sb1, w1) sb1 (sb1, w1)) by reflexivity.
          rewrite He, He1.
          unfold bind at 1. unfold bind at 1. rewrite Hu.
          replace (v =? eof) with false
            by (rewrite Hv; symmetry; apply Z.eqb_neq; exact Hz).
          rewrite (bind_Ok _ _ (sb1, w1) false (sb1, w1)) by reflexivity.
          reflexivity. }
        rewrite Hsame.
        apply (Hnonempty loop_fuel IH); try assumption; lia.
    + apply (Hnonempty loop_fuel IH); try assumption; lia.
Qed.

Lemma Fd_of_fd_ok d w ep :
  w_fds w !! d = Some ep ->
  (forall e, hd Proceed (w_oracle w) <> Fail e) ->
  Fd_of_fd d w =
  (Ok (Fd.mk d (classify (endpoint_mode ep)) false), set_oracle (tl (w_oracle w)) w).
Proof.
  intros Hd Hf. unfold Fd_of_fd, sys_fstat. unfold bind at 1. unfold bind at 1.
  rewrite next_fault_eq.
  destruct (hd Proceed (w_oracle w)) as [|k|e];
    try (exfalso; apply (Hf e); reflexivity);
    unfold bind, gets; cbn [w_fds set_oracle]; rewrite Hd; reflexivity.
Qed.

(** A stream built on a descriptor stands where the descriptor stands. *)
Lemma fdbuf_of_fd_stream_at d w mode data pos :
  w_fds w !! d = Some (EData mode data pos) ->
  no_fail (w_oracle w) = true ->
  0 <= pos ->
  exists sb w1,
    fdbuf_of_fd d w = (Ok sb, w1) /\
    stream_at mode data pos (sb, w1) /\
    fdbuf.fd sb = Fd.mk d (classify mode) false /\
    window_len sb = 0.
Proof.
  intros Hd Ho Hp.
  set (b := mkptr (length (w_heap w)) 0).
  exists (fdbuf.mk b b b (Fd.mk d (classify mode) false) b default_bufsize true).
  eexists. split.
  { unfold fdbuf_of_fd.
    rewrite (bind_Ok _ _ _ _ _ (Fd_of_fd_ok d w _ Hd (no_fail_hd _ Ho))).
    reflexivity. }
  split; [|split; reflexivity].
  split; [exact Hp|]. split; [vm_compute; split; reflexivity|].
  split; [apply no_fail_tl, Ho|].
  split; [cbn -[fresh_bytes]; unfold window_len, ptr_diff; cbn -[fresh_bytes];
          rewrite Z.sub_diag, Z.add_0_r; exact Hd|].
  exists (fresh_bytes (set_oracle (tl (w_oracle w)) w) default_bufsize).
  cbn -[fresh_bytes Z.to_nat].
  split; [apply list_lookup_middle; reflexivity|].
  split; [lia|].
  split; [unfold fresh_bytes; rewrite length_map, length_seq; lia|].
  left. unfold ptr_eqb. cbn -[fresh_bytes Z.to_nat].
  rewrite Nat.eqb_refl. reflexivity.
Qed.

(** X7. [xsgetn] hands out the source in order.  On a stream that
    stands at offset [p] of a source delivering [data], whatever is
    buffered and however short the kernel cuts the reads, a request for
    [n] bytes returns the next [min n (length data - p)] bytes of the
    source and their count: fewer than asked only at end of input, and
    then without an error.  The stream stands behind the bytes
    returned, ready for the next request.  A budget of [n] rounds is
    enough. *)
Theorem xsgetn_delivers_the_source
    (fuel : nat) (n mode : Z) (data : list byte) (p : Z) (s : Obj) :
  stream_at mode data p s ->
  0 <= n ->
  (Z.to_nat n <= fuel)%nat ->
  exists s',
    xsgetn fuel n s = (Ok (to_come data p n, slice data p (to_come data p n)), s') /\
    stream_at mode data (p + to_come data p n) s'.
Proof.
  intros Hat Hn Hfuel. destruct s as [sb w]. unfold xsgetn.
  destruct (xsgetn_loop_reads fuel mode data fuel n n [] sb w p Hat Hn Hfuel)
    as (c & bs & st & Hrun & Hc & Hbs & Hst).
  exists st. split; [|exact Hst].
  rewrite Hrun, Hc, Hbs. simpl. repeat f_equal. lia.
Qed.

Lemma xsgetn_delivers_the_source_witness :
  exists s s',
    fdbuf_of_fd 3 (world_with (regular_file 10) [Proceed; Short 3]) = (Ok (fst s), snd s) /\
    xsgetn 20 20 s
    = (Ok (to_come (bytes_from 0 10) 0 20,
           slice (bytes_from 0 10) 0 (to_come (bytes_from 0 10) 0 20)), s').
Proof.
  destruct (fdbuf_of_fd_stream_at 3 (world_with (regular_file 10) [Proceed; Short 3])
              (Z.lor S_IFREG 420) (bytes_from 0 10) 0)
    as (sb & w1 & Hc & Hat & _); [reflexivity | reflexivity | lia |].
  destruct (xsgetn_delivers_the_source 20 20 (Z.lor S_IFREG 420) (bytes_from 0 10) 0
              (sb, w1) Hat)
    as (s' & Hx & _); [lia | lia |].
  exists (sb, w1), s'. split; [exact Hc | exact Hx].
Defined.

(** X9. Bytes that are buffered are served without a system call: a
    request that the window covers returns the next [n] bytes of the
    source, moves the read cursor by [n] and leaves the world as it
    is. *)
Theorem xsgetn_serves_the_window_without_io
    (fuel : nat) (n mode : Z) (data : list byte) (p : Z)
    (sb : fdbuf.t) (w : World) :
  stream_at mode data p (sb, w) ->
  0 < n <= window_len sb ->
  (1 <= fuel)%nat ->
  xsgetn fuel n (sb, w) =
  (Ok (n, slice data p n),
   (fdbuf.mk (fdbuf.eback sb) (ptr_add (fdbuf.gptr sb) n) (fdbuf.egptr sb)
      (fdbuf.fd sb) (fdbuf.buf sb) (fdbuf.capacity sb) (fdbuf.owned sb), w)).
Proof.
  intros Hat Hn Hfuel. unfold xsgetn.
  destruct fuel as [|fuel]; [lia|].
  assert (He : ptr_eqb (fdbuf.gptr sb) (fdbuf.egptr sb) = false).
  { unfold ptr_eqb. unfold window_len, ptr_diff in Hn.
    replace (off (fdbuf.gptr sb) =? off (fdbuf.egptr sb)) with false
      by (symmetry; apply Z.eqb_neq; lia).
    apply andb_false_r. }
  destruct (xsgetn_round (S fuel) (S fuel) n n [] mode data p sb w Hat He)
    as (_ & _ & _ & Hstep); [lia|].
  rewrite Hstep.
  replace (Z.min n (window_len sb)) with n by lia.
  rewrite xsgetn_loop_unfold.
  replace (0 <? n - n) with false by (symmetry; apply Z.ltb_ge; lia).
  unfold ret. simpl. repeat f_equal. lia.
Qed.

Lemma xsgetn_serves_the_window_without_io_witness :
  exists sb w,
    result (one_byte_read (regular_file 6) this) = Some (Ok sb) /\
    final snd (one_byte_read (regular_file 6) this) = Some w /\
    xsgetn 1 3 (sb, w) =
    (Ok (3, slice (bytes_from 0 6) 1 3),
     (fdbuf.mk (fdbuf.eback sb) (ptr_add (fdbuf.gptr sb) 3) (fdbuf.egptr sb)
        (fdbuf.fd sb) (fdbuf.buf sb) (fdbuf.capacity sb) (fdbuf.owned sb), w)).
Proof.
  destruct (fdbuf_of_fd_stream_at 3 (world_with (regular_file 6) [])
              (Z.lor S_IFREG 420) (bytes_from 0 6) 0)
    as (sb0 & w0 & Hc & Hat & _); [reflexivity | reflexivity | lia |].
  destruct (xsgetn_loop_reads 1 (Z.lor S_IFREG 420) (bytes_from 0 6) 1 1 1 []
              sb0 w0 0 Hat)
    as (c & bs & [sb w] & Hx & -> & -> & Hat1); [lia | lia |].
  change (xsgetn_loop 1 1 1 1 [] (sb0, w0)) with (xsgetn 1 1 (sb0, w0)) in Hx.
  exists sb, w.
  unfold one_byte_read, with_stream, result, final, stream_read.
  rewrite Hc. rewrite (bind_Ok _ _ _ _ _ Hx).
  split; [reflexivity|]. split; [reflexivity|].
  assert (Hw : window_len sb = 5).
  { destruct Hat1 as (_ & _ & _ & Hd & _).
    unfold xsgetn in Hx. vm_compute in Hc. injection Hc as <- <-.
    vm_compute in Hx. injection Hx as <- <-. reflexivity. }
  apply (xsgetn_serves_the_window_without_io 1 3 (Z.lor S_IFREG 420)
           (bytes_from 0 6) (0 + to_come (bytes_from 0 6) 0 1) sb w Hat1);
    [rewrite Hw; lia | lia].
Defined.

(** ** Seeking forward on a regular file, then reading *)

Lemma window_len_bounds mode data p sb w :
  stream_at mode data p (sb, w) -> 0 <= window_len sb <= fdbuf.capacity sb.
Proof.
  intros (_ & Hcap & _ & _ & bytes & _ & _ & _ & [He | Hwin]); simpl in *.
  - apply ptr_eqb_true in He. destruct He as [_ He].
    unfold window_len, ptr_diff. lia.
  - unfold window_len, ptr_diff. lia.
Qed.

Lemma skipForward_regular fuel a mode data p sb w :
  stream_at mode data p (sb, w) ->
  Fd.type (fdbuf.fd sb) = reg ->
  seekable mode = true ->
  0 <= a ->
  p + a <= max_offset w ->
  exists s',
    skipForward fuel a (sb, w)
    = (Ok (ptr_diff (fdbuf.egptr sb) (fdbuf.eback sb)), s') /\
    fst s' = drop_window sb /\
    stream_at mode data (p + a) s'.
Proof.
  intros Hat Ht Hs Ha Hlim.
  pose proof (window_len_bounds _ _ _ _ _ Hat) as Hwl.
  destruct Hat as (Hp & Hcap & Ho & Hd & bytes & Hh & Hb0 & Hb1 & _).
  cbn [fst snd] in *.
  assert (Hm : max_offset w <= two63 - 1) by (unfold max_offset; lia).
  assert (Hw : ios_in <> ios_out) by (vm_compute; discriminate).
  unfold window_len in Hwl, Hd.
  eexists. split; [|split].
  - unfold skipForward.
    apply (seekoff_regular fuel a ios_in sb w mode data _ Hw Ht
             (no_fail_hd _ Ho) Hd Hs); [int_consts; lia | lia].
  - reflexivity.
  - unfold stream_at. cbn [fst snd]. split; [lia|].
    split; [exact Hcap|]. split; [apply no_fail_tl; exact Ho|].
    split.
    + cbn [w_fds set_fds set_oracle drop_window fdbuf.fd].
      rewrite lookup_insert_eq. unfold window_len, ptr_diff, drop_window.
      cbn [fdbuf.egptr fdbuf.gptr]. f_equal. f_equal. unfold ptr_diff. lia.
    + exists bytes. split; [exact Hh|]. split; [exact Hb0|]. split; [exact Hb1|].
      left. unfold drop_window, ptr_eqb. cbn [fdbuf.egptr fdbuf.gptr].
      rewrite Nat.eqb_refl, Z.eqb_refl. reflexivity.
Qed.

(** A relative [lseek] whose target lies above the largest offset fails
    with [EINVAL] and moves nothing. *)
Lemma sys_lseek_cur_beyond d w mode data pos x :
  (forall e, hd Proceed (w_oracle w) <> Fail e) ->
  w_fds w !! d = Some (EData mode data pos) ->
  seekable mode = true ->
  max_offset w < pos + x ->
  sys_lseek d x SEEK_CUR w =
  (Ok (-1), set_errno EINVAL (set_oracle (tl (w_oracle w)) w)).
Proof.
  intros Hf Hd Hs Hp. unfold sys_lseek, bind. rewrite next_fault_eq.
  destruct (hd Proceed (w_oracle w)) as [|k|e];
    try (exfalso; apply (Hf e); reflexivity);
    simpl; unfold bind, gets, modify, ret; simpl; rewrite Hd, Hs;
    change (max_offset (set_oracle (tl (w_oracle w)) w)) with (max_offset w);
    (replace (max_offset w <? pos + x) with true
       by (symmetry; apply Z.ltb_lt; lia));
    rewrite orb_true_r; reflexivity.
Qed.

(** X8. On a regular file a forward seek and a read compose, as far as
    the file system has offsets: after [seekg(a, cur)] on a stream that
    stands at offset [p], with [p + a] at most the largest offset
    [lseek] accepts, a read of [n] bytes returns the bytes of the file
    from offset [p + a] on, whatever was buffered before the seek, and
    as many of them as the file has left; past the end of the file it
    returns none.  When [p + a] lies above the largest offset, [lseek]
    rejects the target and the seek throws. *)
Theorem regular_seek_then_read
    (fuel : nat) (a n mode : Z) (data : list byte) (p : Z) (s : Obj) :
  stream_at mode data p s ->
  Fd.type (fdbuf.fd (fst s)) = reg ->
  seekable mode = true ->
  0 <= a < two63 ->
  (p + a <= max_offset (snd s) ->
   0 <= n ->
   (Z.to_nat n <= fuel)%nat ->
   exists s',
     (skipForward fuel a ;;; stream_read fuel n) s
     = (Ok (to_come data (p + a) n, slice data (p + a) (to_come data (p + a) n)), s') /\
     stream_at mode data (p + a + to_come data (p + a) n) s') /\
  (max_offset (snd s) < p + a ->
   fst (skipForward fuel a s) = Throw (SeekError EINVAL)).
Proof.
  intros Hat Ht Hs Ha. destruct s as [sb w]. cbn [fst snd] in *. split.
  - intros Hlim Hn Hfuel.
    destruct (skipForward_regular fuel a mode data p sb w Hat Ht Hs
                ltac:(lia) Hlim)
      as ([sb1 w1] & Hseek & _ & Hat1).
    rewrite (bind_Ok _ _ _ _ _ Hseek).
    unfold stream_read, xsgetn.
    destruct (xsgetn_loop_reads fuel mode data fuel n n [] sb1 w1 (p + a) Hat1 Hn Hfuel)
      as (c & bs & st & Hrun & Hc & Hbs & Hst).
    exists st. split; [|exact Hst].
    rewrite Hrun, Hc, Hbs. simpl. repeat f_equal. lia.
  - intros Hlim.
    pose proof (window_len_bounds _ _ _ _ _ Hat) as Hwl.
    destruct Hat as (Hp & Hcap & Ho & Hd & _). cbn [fst snd] in *.
    unfold window_len in Hwl, Hd.
    unfold skipForward.
    rewrite seekoff_cur_eq by (vm_compute; discriminate).
    unfold skip. rewrite Ht.
    rewrite to_off_t_to_size_t by (int_consts; lia).
    unfold lseek.
    set (L := ptr_diff (fdbuf.egptr sb) (fdbuf.gptr sb)) in *.
    assert (Hb : max_offset w < p + L + (a - L)) by lia.
    rewrite (bind_Ok _ _ _ _ _
               (sys_lseek_cur_beyond _ w mode data (p + L) (a - L)
                  (no_fail_hd _ Ho) Hd Hs Hb)).
    reflexivity.
Qed.

Lemma regular_seek_then_read_witness :
  exists sb w s',
    result (one_byte_read (regular_file 10) this) = Some (Ok sb) /\
    final snd (one_byte_read (regular_file 10) this) = Some w /\
    (skipForward 4 3 ;;; stream_read 4 4) (sb, w)
    = (Ok (to_come (bytes_from 0 10) (1 + 3) 4,
           slice (bytes_from 0 10) (1 + 3) (to_come (bytes_from 0 10) (1 + 3) 4)), s') /\
    fst (skipForward 4 (2 ^ 63 - 1) (sb, w)) = Throw (SeekError EINVAL).
Proof.
  destruct (fdbuf_of_fd_stream_at 3 (world_with (regular_file 10) [])
              (Z.lor S_IFREG 420) (bytes_from 0 10) 0)
    as (sb0 & w0 & Hc & Hat & Hfd & _); [reflexivity | reflexivity | lia |].
  destruct (xsgetn_loop_reads 1 (Z.lor S_IFREG 420) (bytes_from 0 10) 1 1 1 []
              sb0 w0 0 Hat)
    as (c & bs & [sb w] & Hx & -> & -> & Hat1); [lia | lia |].
  change (xsgetn_loop 1 1 1 1 [] (sb0, w0)) with (xsgetn 1 1 (sb0, w0)) in Hx.
  assert (Ht : Fd.type (fdbuf.fd (fst (sb, w))) = reg /\ max_offset w = two63 - 1).
  { vm_compute in Hc. injection Hc as <- <-.
    vm_compute in Hx. injection Hx as <- <-. split; reflexivity. }
  destruct Ht as [Ht Hm].
  destruct (regular_seek_then_read 4 3 4 (Z.lor S_IFREG 420) (bytes_from 0 10)
              (0 + to_come (bytes_from 0 10) 0 1) (sb, w) Hat1 Ht)
    as [H1 _]; [reflexivity | int_consts; lia |].
  destruct H1 as (s' & Hrun & _);
    [cbn [snd]; rewrite Hm; vm_compute; discriminate | lia | lia |].
  destruct (regular_seek_then_read 4 (2 ^ 63 - 1) 4 (Z.lor S_IFREG 420)
              (bytes_from 0 10) (0 + to_come (bytes_from 0 10) 0 1) (sb, w) Hat1 Ht)
    as [_ H2]; [reflexivity | int_consts; lia |].
  exists sb, w, s'.
  unfold one_byte_read, with_stream, result, final, stream_read.
  rewrite Hc. rewrite (bind_Ok _ _ _ _ _ Hx).
  split; [reflexivity|]. split; [reflexivity|]. split; [exact Hrun|].
  apply H2. cbn [snd]. rewrite Hm. vm_compute. reflexivity.
Defined.

(** ** The lifetime of the buffer

    Only [setbuf] and the destructor release memory, and only while the
    object owns its buffer; reads and seeks write into blocks but leave
    the allocations as they are. *)

Lemma same_lifetimes_heap_only (w0 : World) :
  forall w w', w_heap w' = w_heap w -> w_freed w' = w_freed w ->
    same_lifetimes w0 w -> same_lifetimes w0 w'.
Proof.
  unfold same_lifetimes, lifetimes. intros w w' E1 E2 [H1 H2].
  rewrite E1, E2. split; assumption.
Qed.

Lemma lifetimes_store (l : list block) (i : nat) (b : block) (bytes : list byte) :
  l !! i = Some b -> b_live b = true ->
  map b_live (<[i := mkblock bytes true]> l) = map b_live l.
Proof.
  intros Hl Hb.
  change (map b_live (<[i := mkblock bytes true]> l))
    with (b_live <$> <[i := mkblock bytes true]> l).
  rewrite list_fmap_insert. apply list_insert_id.
  rewrite list_lookup_fmap, Hl. simpl. rewrite Hb. reflexivity.
Qed.

Lemma lifetimes_heap_store w0 p bs :
  keeps (same_lifetimes w0) (heap_store p bs) (fun _ => True).
Proof.
  intros w H. split; [|trivial].
  unfold heap_store. destruct bs as [|x bs]; [exact H|].
  destruct (w_heap w !! blk p) as [b|] eqn:E; [|exact H].
  destruct (b_live b) eqn:Hb; cbn [negb]; [|exact H].
  destruct (_ || _); [exact H|].
  cbn [snd]. destruct H as [H1 H2]. split; [exact H1|].
  unfold lifetimes in *. cbn [w_heap set_heap].
  rewrite (lifetimes_store _ _ _ _ E Hb). exact H2.
Qed.

Lemma lifetimes_heap_load w0 p n :
  keeps (same_lifetimes w0) (heap_load p n) (fun _ => True).
Proof.
  intros w H. split; [|trivial].
  unfold heap_load. destruct (n <=? 0); [exact H|].
  destruct (w_heap w !! blk p) as [b|]; [|exact H].
  destruct (negb (b_live b)); [exact H|].
  destruct (_ || _); exact H.
Qed.

Lemma lifetimes_sys_read w0 d buf count :
  keeps (same_lifetimes w0) (sys_read d buf count) (fun _ => True).
Proof.
  unfold sys_read.
  repeat first [ apply lifetimes_heap_store
               | heap_only_step (same_lifetimes_heap_only w0) ].
Qed.

Lemma lifetimes_read w0 fuel h buf count :
  keeps (same_lifetimes w0) (read fuel h buf count) (fun _ => True).
Proof.
  unfold read. apply (keeps_bind _ _ (fun _ => True) _); [|intros; apply keeps_ret; trivial].
  induction fuel as [|fuel IH]; rewrite read_retry_unfold;
    (eapply keeps_bind; [apply lifetimes_sys_read|]); intros n _;
    (destruct (n =? -1); [|apply keeps_ret; trivial]);
    unfold errno_now; (eapply keeps_bind; [apply keeps_gets|]);
    intros e _; (destruct (negb (errno_eqb e EINTR)); [apply keeps_throw|]).
  - apply keeps_out_of_fuel.
  - exact IH.
Qed.

Lemma same_lifetimes_refl w : same_lifetimes w w.
Proof. split; reflexivity. Qed.

Lemma same_buffer_refl s : same_buffer s s.
Proof. split; [reflexivity|]. split; [reflexivity|]. apply same_lifetimes_refl. Qed.

Lemma same_buffer_trans s1 s2 s3 :
  same_buffer s1 s2 -> same_buffer s2 s3 -> same_buffer s1 s3.
Proof.
  intros (A1 & A2 & A3 & A4) (B1 & B2 & B3 & B4).
  split; [congruence|]. split; [congruence|]. split; congruence.
Qed.

Lemma stable_ret {A} (a : A) : stable (ret a).
Proof. intros s. apply same_buffer_refl. Qed.

Lemma stable_this : stable this.
Proof. intros s. apply same_buffer_refl. Qed.

Lemma stable_throw {A} e : stable (@throw Obj A e).
Proof. intros s. apply same_buffer_refl. Qed.

Lemma stable_out_of_fuel {A} : stable (@out_of_fuel Obj A).
Proof. intros s. apply same_buffer_refl. Qed.

Lemma stable_setg a b c : stable (setg a b c).
Proof.
  intros s. unfold setg, modify. cbn [snd].
  split; [reflexivity|]. split; [reflexivity|]. apply same_lifetimes_refl.
Qed.

Lemma stable_bind {A B} (m : M Obj A) (k : A -> M Obj B) :
  stable m -> (forall a, stable (k a)) -> stable (bind m k).
Proof.
  intros Hm Hk s. specialize (Hm s). unfold bind.
  destruct (m s) as [[a| | |] s1]; cbn [snd] in *; try exact Hm.
  apply (same_buffer_trans _ _ _ Hm (Hk a s1)).
Qed.

Lemma stable_liftW {A} (m : M World A) :
  (forall w0, keeps (same_lifetimes w0) m (fun _ => True)) -> stable (liftW m).
Proof.
  intros Hm s. destruct (Hm (snd s) (snd s) (same_lifetimes_refl _)) as [H _].
  unfold liftW. destruct (m (snd s)) as [r w']. cbn [fst snd] in *.
  split; [reflexivity|]. split; [reflexivity|]. exact H.
Qed.

Lemma stable_underflow fuel : stable (underflow fuel).
Proof.
  unfold underflow.
  apply stable_bind; [apply stable_this|]. intros sb.
  apply stable_bind.
  - destruct (ptr_eqb _ _); [|apply stable_ret].
    apply stable_bind; [|intros n; apply stable_setg].
    apply stable_liftW. intros w0. apply lifetimes_read.
  - intros _. apply stable_bind; [apply stable_this|]. intros sb1.
    destruct (ptr_eqb _ _); [apply stable_ret|].
    apply stable_bind; [|intros c; apply stable_ret].
    apply stable_liftW. intros w0. apply lifetimes_heap_load.
Qed.

Lemma stable_xsgetn_loop fuel loop_fuel :
  forall n rem s, stable (xsgetn_loop fuel loop_fuel n rem s).
Proof.
  induction loop_fuel as [|loop_fuel IH]; intros n rem s;
    rewrite xsgetn_loop_unfold;
    (destruct (0 <? rem); [|apply stable_ret]);
    (apply stable_bind; [apply stable_this|]); intros sb;
    (apply stable_bind;
     [destruct (ptr_eqb _ _); [|apply stable_ret];
      apply stable_bind; [apply stable_underflow | intros c; apply stable_ret]|]);
    intros [|]; try apply stable_ret;
    (apply stable_bind; [apply stable_this|]); intros sb1;
    (apply stable_bind;
     [apply stable_liftW; intros w0; apply lifetimes_heap_load|]); intros bs;
    (apply stable_bind; [apply stable_setg|]); intros _.
  - apply stable_out_of_fuel.
  - apply IH.
Qed.

Lemma stable_seekoff fuel off way which : stable (seekoff fuel off way which).
Proof.
  unfold seekoff. destruct (_ || _); [apply stable_ret|].
  apply stable_bind; [apply stable_this|]. intros sb.
  apply stable_bind; [apply stable_setg|]. intros _.
  apply stable_bind.
  - apply stable_liftW. intros w0.
    apply (heap_only_skip _ (same_lifetimes_heap_only w0)).
  - intros _. apply stable_bind; [apply stable_this|]. intros sb1. apply stable_ret.
Qed.

Lemma buffer_state_same_buffer b F L s s' :
  same_buffer s s' -> buffer_state b F L s -> buffer_state b F L s'.
Proof.
  intros (E1 & E2 & E3 & E4) [(H1 & H2 & H3 & H4) | (H1 & H3 & H4)]; [left | right].
  - split; [congruence|]. split; [congruence|]. split; congruence.
  - split; [congruence|]. split; congruence.
Qed.

(** Releasing the owned buffer moves the object from the first state
    to the second. *)
Lemma heap_free_owned b F L p w :
  L !! b = Some true -> blk p = b -> w_freed w = F -> lifetimes w = L ->
  fst (heap_free p w) = Ok tt /\
  w_freed (snd (heap_free p w)) = b :: F /\
  lifetimes (snd (heap_free p w)) = <[b := false]> L.
Proof.
  intros HL Hp HF Hl. unfold heap_free. cbv zeta. cbn [w_heap set_freed].
  rewrite Hp.
  assert (Hb : exists bl, w_heap w !! b = Some bl /\ b_live bl = true).
  { rewrite <- Hl in HL. unfold lifetimes in HL.
    change (map b_live (w_heap w)) with (b_live <$> w_heap w) in HL.
    rewrite list_lookup_fmap in HL.
    destruct (w_heap w !! b) as [bl|]; [|discriminate].
    exists bl. split; [reflexivity|]. simpl in HL. congruence. }
  destruct Hb as (bl & -> & Hlive). rewrite Hlive. cbn [negb fst snd].
  split; [reflexivity|]. split.
  - cbn [w_freed set_freed set_heap]. rewrite HF. reflexivity.
  - unfold lifetimes. cbn [w_heap set_freed set_heap].
    change (map b_live (<[b := mkblock (b_bytes bl) false]> (w_heap w)))
      with (b_live <$> <[b := mkblock (b_bytes bl) false]> (w_heap w)).
    rewrite list_fmap_insert. cbn [b_live]. rewrite <- Hl. reflexivity.
Qed.

Lemma buffer_state_setbuf b F L p n s :
  L !! b = Some true ->
  buffer_state b F L s ->
  fst (setbuf p n s) = Ok tt /\ buffer_state b F L (snd (setbuf p n s)).
Proof.
  intros HL [(H1 & H2 & H3 & H4) | (H1 & H3 & H4)];
    unfold setbuf, bind, this, gets, modify; cbn [fst snd]; rewrite H1.
  - destruct (heap_free_owned b F L (fdbuf.buf (fst s)) (snd s) HL H2 H3 H4)
      as (E1 & E2 & E3).
    unfold liftW. destruct (heap_free (fdbuf.buf (fst s)) (snd s)) as [r w'].
    cbn [fst snd] in *. subst r. split; [reflexivity|].
    right. cbn [fst snd fdbuf.owned].
    split; [reflexivity|]. split; assumption.
  - unfold ret. split; [reflexivity|]. right. cbn [fst snd fdbuf.owned].
    split; [reflexivity|]. split; assumption.
Qed.

Lemma buffer_state_run_stream_ops b F L fuel ops :
  L !! b = Some true ->
  forall s, buffer_state b F L s -> buffer_state b F L (run_stream_ops fuel ops s).
Proof.
  intros HL. induction ops as [|o ops IH]; intros s H; [exact H|].
  cbn [run_stream_ops]. apply IH. destruct o as [n | off way which | p n];
    cbn [run_stream_op].
  - apply (buffer_state_same_buffer b F L s); [|exact H].
    apply stable_bind; [apply stable_xsgetn_loop | intros; apply stable_ret].
  - apply (buffer_state_same_buffer b F L s); [|exact H].
    apply stable_bind; [apply stable_seekoff | intros; apply stable_ret].
  - apply buffer_state_setbuf; assumption.
Qed.

Lemma run_stream_ops_app fuel pre post s :
  run_stream_ops fuel (pre ++ post) s
  = run_stream_ops fuel post (run_stream_ops fuel pre s).
Proof.
  revert s. induction pre as [|o pre IH]; intros s; [reflexivity|].
  cbn [app run_stream_ops]. apply IH.
Qed.

(** The destructor of the handle always returns. *)
Lemma Fd_dtor_returns h w : fst (Fd_dtor h w) = Ok tt.
Proof.
  unfold Fd_dtor. destruct (Fd.owned h); [|reflexivity].
  unfold sys_close, bind, modify, gets, fail_with, ret. cbn [fst snd w_fds set_closed].
  destruct (w_fds w !! Fd.fd h); reflexivity.
Qed.

(** X10. The buffer the constructor allocated is released exactly
    once.  [w_freed] records every call of [delete[]], also one on a
    block that is released already.  For a stream object that owns its
    buffer, a live array, and for every sequence of reads, seeks and
    calls of [setbuf], whatever the outcomes of the reads and seeks:
    every call of [setbuf] returns, the destructor returns, and from
    construction to the end of the destructor [delete[]] is called
    once, on that array; it is the one array whose allocation changed,
    so no buffer handed to [setbuf] is released. *)
Theorem buffer_released_exactly_once
    (fuel : nat) (ops : list stream_op) (sb : fdbuf.t) (w : World) :
  fdbuf.owned sb = true ->
  lifetimes w !! blk (fdbuf.buf sb) = Some true ->
  let s' := run_stream_ops fuel ops (sb, w) in
  let w' := destroy s' in
  (forall pre p n post,
     ops = pre ++ StSetbuf p n :: post ->
     fst (setbuf p n (run_stream_ops fuel pre (sb, w))) = Ok tt) /\
  fst (fdbuf_dtor (fst s') (snd s')) = Ok tt /\
  w_freed w' = blk (fdbuf.buf sb) :: w_freed w /\
  lifetimes w' = <[blk (fdbuf.buf sb) := false]> (lifetimes w) /\
  frees (blk (fdbuf.buf sb)) w' = S (frees (blk (fdbuf.buf sb)) w) /\
  forall b', b' <> blk (fdbuf.buf sb) ->
    frees b' w' = frees b' w /\ lifetimes w' !! b' = lifetimes w !! b'.
Proof.
  intros Ho HL s' w'.
  set (b := blk (fdbuf.buf sb)) in *.
  assert (H0 : buffer_state b (w_freed w) (lifetimes w) (sb, w)).
  { left. cbn [fst snd]. split; [exact Ho|]. split; [reflexivity|].
    split; reflexivity. }
  pose proof (buffer_state_run_stream_ops b _ _ fuel ops HL _ H0) as H.
  fold s' in H.
  split.
  { intros pre p n post _.
    apply (buffer_state_setbuf b (w_freed w) (lifetimes w) p n _ HL).
    apply buffer_state_run_stream_ops; assumption. }
  assert (Hw' : fst (fdbuf_dtor (fst s') (snd s')) = Ok tt /\
                w_freed w' = b :: w_freed w /\
                lifetimes w' = <[b := false]> (lifetimes w)).
  { subst w'. unfold destroy, fdbuf_dtor.
    destruct s' as [sb1 w1]. cbn [fst snd] in *.
    assert (K : forall F L', keeps (fun x => w_freed x = F /\ lifetimes x = L')
                  (Fd_dtor (fdbuf.fd sb1)) (fun _ => True)).
    { intros F L'. apply heap_only_Fd_dtor. intros x x' E1 E2 [A1 A2].
      unfold lifetimes in *. rewrite E1, E2. split; assumption. }
    destruct H as [(H1 & H2 & H3 & H4) | (H1 & H3 & H4)]; cbn [fst snd] in *;
      rewrite H1; unfold bind.
    - destruct (heap_free_owned b _ _ (fdbuf.buf sb1) w1 HL H2 H3 H4)
        as (E1 & E2 & E3).
      destruct (heap_free (fdbuf.buf sb1) w1) as [r w2]. cbn [fst snd] in *.
      subst r. split; [apply Fd_dtor_returns|].
      apply (K _ _ w2). split; assumption.
    - unfold ret. split; [apply Fd_dtor_returns|].
      apply (K _ _ w1). split; assumption. }
  destruct Hw' as (Hret & HF & HLt).
  split; [exact Hret|].
  split; [exact HF|]. split; [exact HLt|]. split.
  - unfold frees. rewrite HF. rewrite filter_cons_True by reflexivity. reflexivity.
  - intros b' Hb'. split.
    + unfold frees. rewrite HF. rewrite filter_cons_False by congruence. reflexivity.
    + rewrite HLt. apply list_lookup_insert_ne. congruence.
Qed.

Lemma buffer_released_exactly_once_witness :
  let w0 := set_heap [mkblock (replicate 16 x00) true; mkblock (replicate 16 x00) true]
              (world_with (regular_file 10) []) in
  let ops := [StSetbuf (mkptr 0 0) 16; StRead 4; StSeek 2 cur ios_in;
              StSetbuf (mkptr 1 0) 16] in
  exists sb w,
    fdbuf_of_fd 3 w0 = (Ok sb, w) /\
    blk (fdbuf.buf sb) = 2%nat /\
    fst (run_stream_op 8 (StRead 1) (run_stream_ops 8 ops (sb, w))) = Ok tt /\
    w_freed (destroy (run_stream_ops 8 (ops ++ [StRead 1]) (sb, w))) = [2%nat] /\
    lifetimes (destroy (run_stream_ops 8 (ops ++ [StRead 1]) (sb, w)))
    = [true; true; false].
Proof.
  intros w0 ops.
  destruct (fdbuf_of_fd_stream_at 3 w0 (Z.lor S_IFREG 420) (bytes_from 0 10) 0)
    as (sb & w & Hc & _); [reflexivity | reflexivity | lia |].
  pose proof (fdbuf_ctor_cases (Fd_of_fd 3) w0
                (heap_only_Fd_of_fd _ (same_heap_heap_only _ _) 3)) as C.
  change (h <- Fd_of_fd 3 ;; fdbuf_init h) with (fdbuf_of_fd 3) in C.
  rewrite Hc in C. destruct C as ((bytes & _ & Hh) & Hf & Hb & _ & _ & _ & _ & Ho).
  assert (HL : lifetimes w !! blk (fdbuf.buf sb) = Some true)
    by (unfold lifetimes; rewrite Hh, Hb; reflexivity).
  destruct (buffer_released_exactly_once 8 (ops ++ [StRead 1]) sb w Ho HL)
    as (_ & _ & HF & HLt & _).
  exists sb, w. split; [exact Hc|].
  split; [rewrite Hb; reflexivity|].
  split.
  - clear HF HLt HL. vm_compute in Hc. injection Hc as <- <-.
    vm_compute. reflexivity.
  - split.
    + rewrite HF, Hf, Hb. reflexivity.
    + rewrite HLt. unfold lifetimes. rewrite Hh, Hb. reflexivity.
Defined.

(** ** [underflow] looks at the next byte *)

Lemma underflow_window fuel mode data p sb w :
  stream_at mode data p (sb, w) ->
  ptr_eqb (fdbuf.gptr sb) (fdbuf.egptr sb) = false ->
  underflow fuel (sb, w)
  = (Ok (default eof (to_int_type <$> data !! Z.to_nat p)), (sb, w)).
Proof.
  intros Hat He.
  destruct (xsgetn_round fuel 0 1 1 [] mode data p sb w Hat He) as (Ha & Hin & _);
    [lia|].
  destruct Hat as (Hp & Hcap & Ho & Hd & bytes & Hb & Hob & Hlen & Hwin).
  cbn [fst snd] in *.
  destruct Hwin as [Hwin|(Hbg & Hbe & Hg1 & Hg2 & Hg3 & Hsl)]; [congruence|].
  assert (HL : window_len sb = off (fdbuf.egptr sb) - off (fdbuf.gptr sb))
    by reflexivity.
  assert (Hload : heap_load (fdbuf.gptr sb) 1 w = (Ok (slice data p 1), w)).
  { rewrite (heap_load_ok (fdbuf.gptr sb) 1 w bytes);
      [| rewrite Hbg; exact Hb | lia | lia | lia].
    rewrite (slice_prefix bytes data _ p (window_len sb) 1 Hsl) by lia.
    reflexivity. }
  rewrite peek_inside by (unfold avail; lia).
  unfold underflow.
  rewrite (bind_Ok _ _ (sb, w) sb (sb, w)) by reflexivity.
  rewrite He.
  rewrite (bind_Ok _ _ (sb, w) tt (sb, w)) by reflexivity.
  rewrite (bind_Ok _ _ (sb, w) sb (sb, w)) by reflexivity.
  rewrite He.
  rewrite (bind_Ok _ _ _ _ _ (liftW_Ok _ sb w _ _ Hload)).
  reflexivity.
Qed.

(** X11. [underflow] returns the byte at the position of the stream
    and does not consume it: on a stream that stands at offset [p] it
    returns the byte of the source at [p], or [eof] when the source has
    no byte there, and the stream still stands at [p].  With bytes in
    the window it touches nothing at all. *)
Theorem underflow_peeks
    (fuel : nat) (mode : Z) (data : list byte) (p : Z) (s : Obj) :
  stream_at mode data p s ->
  exists s',
    underflow fuel s = (Ok (default eof (to_int_type <$> data !! Z.to_nat p)), s') /\
    stream_at mode data p s' /\
    (window_len (fst s) <> 0 -> s' = s).
Proof.
  intros Hat. destruct s as [sb w]. cbn [fst].
  destruct (ptr_eqb (fdbuf.gptr sb) (fdbuf.egptr sb)) eqn:He.
  - destruct (underflow_refill fuel mode data p sb w Hat He)
      as (v & w1 & Hu & Hat1 & _ & _ & _ & Hv).
    eexists. split; [rewrite Hu, Hv; reflexivity|]. split; [exact Hat1|].
    intros Hw. exfalso. apply Hw.
    destruct (ptr_eqb_true _ _ He) as [_ E]. unfold window_len, ptr_diff. lia.
  - exists (sb, w). split; [apply (underflow_window fuel mode data p sb w Hat He)|].
    split; [exact Hat|]. reflexivity.
Qed.

Lemma underflow_peeks_witness :
  exists s s',
    fdbuf_of_fd 3 (world_with (regular_file 10) [Short 2]) = (Ok (fst s), snd s) /\
    underflow 1 s
    = (Ok (default eof (to_int_type <$> bytes_from 0 10 !! Z.to_nat 0)), s').
Proof.
  destruct (fdbuf_of_fd_stream_at 3 (world_with (regular_file 10) [Short 2])
              (Z.lor S_IFREG 420) (bytes_from 0 10) 0)
    as (sb & w & Hc & Hat & _); [reflexivity | reflexivity | lia |].
  destruct (underflow_peeks 1 (Z.lor S_IFREG 420) (bytes_from 0 10) 0 (sb, w) Hat)
    as (s' & Hu & _).
  exists (sb, w), s'. split; [exact Hc | exact Hu].
Defined.

(** ** The helper descriptors of [skip]

    [splice_pipe_to_null] and [splice_to_null] keep their descriptor on
    [/dev/null] and their pipe in function-local statics. *)

(** One step of a proof that a computation keeps a property which the
    setters applied on the way leave as it is, by conversion. *)
Ltac frame_step :=
  first
    [ apply keeps_ret; trivial
    | apply keeps_throw
    | apply keeps_out_of_fuel
    | apply keeps_gets
    | apply keeps_modify;
      let w := fresh "w" in let H := fresh "H" in intros w H; exact H
    | match goal with
      | |- keeps _ next_fault _ =>
          let w := fresh "w" in let H := fresh "H" in
          intros w H; rewrite next_fault_eq; split; [exact H | intros; exact I]
      | |- keeps _ (fail_with _ _) _ =>
          let w := fresh "w" in let H := fresh "H" in
          intros w H; split; [exact H | intros; exact I]
      end
    | eapply keeps_bind; [|intros ? ?]
    | match goal with
      | |- keeps _ (match ?x with _ => _ end) _ => destruct x
      | |- keeps _ (let '(_, _) := ?x in _) _ => destruct x
      | |- keeps _ (let _ := _ in _) _ => cbv zeta
      end ].

Lemma quiet_sys_lseek w0 d offset wh :
  keeps (no_descriptor_traffic w0) (sys_lseek d offset wh) (fun _ => True).
Proof. unfold sys_lseek. repeat frame_step. Qed.

Lemma quiet_sys_splice w0 d_in d_out len :
  keeps (no_descriptor_traffic w0) (sys_splice d_in d_out len) (fun _ => True).
Proof. unfold sys_splice. repeat frame_step. Qed.

Lemma static_sys_splice_fifo d_in d_out len :
  keeps (fun w => is_Some (tl_fifo_dev_null w)) (sys_splice d_in d_out len)
    (fun _ => True).
Proof. unfold sys_splice. repeat frame_step. Qed.

Lemma static_sys_splice_other d_in d_out len :
  keeps (fun w => is_Some (tl_other_dev_null w) /\ is_Some (tl_other_p w))
    (sys_splice d_in d_out len) (fun _ => True).
Proof. unfold sys_splice. repeat frame_step. Qed.

Lemma static_sys_pipe :
  keeps (fun w => is_Some (tl_other_dev_null w)) sys_pipe (fun _ => True).
Proof. unfold sys_pipe. repeat frame_step. Qed.

Lemma static_Pipe_new :
  keeps (fun w => is_Some (tl_other_dev_null w)) Pipe_new (fun _ => True).
Proof.
  unfold Pipe_new, errno_now.
  eapply keeps_bind; [apply static_sys_pipe|]. intros [r [p0 p1]] _.
  repeat frame_step.
Qed.

Lemma keeps_thread_local_ready {A} (P : World -> Prop) get set (init : M World A) :
  (forall w, P w -> is_Some (get w)) ->
  keeps P (thread_local get set init) (fun _ => True).
Proof.
  intros Hg w H. unfold thread_local, bind, gets.
  destruct (Hg w H) as [a ->]. split; [exact H | trivial].
Qed.

Lemma thread_local_sets {A} get set (init : M World A) w a w' :
  (forall x v, get (set x v) = x) ->
  thread_local get set init w = (Ok a, w') -> get w' = Some a.
Proof.
  intros Hs. unfold thread_local, bind, gets, modify, ret.
  destruct (get w) as [x|] eqn:E.
  - intros [= <- <-]. exact E.
  - destruct (init w) as [[x| | |] w1]; try discriminate.
    intros [= <- <-]. apply Hs.
Qed.

Lemma quiet_splice_pipe_to_null_loop w0 fuel h dn :
  forall n,
    keeps (no_descriptor_traffic w0) (splice_pipe_to_null_loop fuel h dn n)
      (fun _ => True).
Proof.
  induction fuel as [|fuel IH]; intros n;
    rewrite splice_pipe_to_null_loop_unfold;
    (destruct (0 <? n); [|apply keeps_ret; trivial]);
    (eapply keeps_bind; [apply quiet_sys_splice|]); intros rd _;
    (destruct (negb (rd =? -1));
     [|unfold errno_now; repeat frame_step]).
  - apply keeps_out_of_fuel.
  - apply IH.
Qed.

Lemma static_splice_pipe_to_null_loop fuel h dn :
  forall n,
    keeps (fun w => is_Some (tl_fifo_dev_null w))
      (splice_pipe_to_null_loop fuel h dn n) (fun _ => True).
Proof.
  induction fuel as [|fuel IH]; intros n;
    rewrite splice_pipe_to_null_loop_unfold;
    (destruct (0 <? n); [|apply keeps_ret; trivial]);
    (eapply keeps_bind; [apply static_sys_splice_fifo|]); intros rd _;
    (destruct (negb (rd =? -1));
     [|unfold errno_now; repeat frame_step]).
  - apply keeps_out_of_fuel.
  - apply IH.
Qed.

Lemma static_splice_to_null_body (P : World -> Prop) h p dn n :
  (forall d_in d_out len, keeps P (sys_splice d_in d_out len) (fun _ => True)) ->
  keeps P
    (if 0 <? n then
       rd <- sys_splice (Fd.fd h) (Pipe.write p) n ;;
       if 0 <? rd then
         written <- sys_splice (Pipe.read p) (Fd.fd dn) rd ;;
         if negb (written =? -1) then ret tt
         else e <- errno_now ;; throw (SpliceWriteFailed e)
       else if rd =? 0 then throw (SplicePrematureZero n)
       else e <- errno_now ;; throw (Splice1Failed e)
     else ret tt)
    (fun _ => True).
Proof.
  intros K. destruct (0 <? n); [|apply keeps_ret; trivial].
  eapply keeps_bind; [apply K|]. intros rd _.
  destruct (0 <? rd).
  - eapply keeps_bind; [apply K|]. intros written _.
    unfold errno_now.
    destruct (negb (written =? -1)); [apply keeps_ret; trivial|].
    eapply keeps_bind; [apply keeps_gets|]. intros e _. apply keeps_throw.
  - unfold errno_now. destruct (rd =? 0); [apply keeps_throw|].
    eapply keeps_bind; [apply keeps_gets|]. intros e _. apply keeps_throw.
Qed.

(** X12. [skip] opens its helper descriptors on first use and never
    again.  A call that returns has constructed the statics it uses for
    the kind of the descriptor.  Once they are constructed, a call,
    whatever its count, the faults and its outcome, opens no
    descriptor, closes none and leaves the statics as they are. *)
Theorem skip_opens_its_helpers_once (fuel : nat) (h : Fd.t) (n : Z) (w : World) :
  (fst (skip fuel h n w) = Ok tt ->
   helpers_ready (Fd.type h) (snd (skip fuel h n w))) /\
  (helpers_ready (Fd.type h) w ->
   no_descriptor_traffic w (snd (skip fuel h n w)) /\
   helpers_ready (Fd.type h) (snd (skip fuel h n w))).
Proof.
  assert (R : no_descriptor_traffic w w) by (repeat split; reflexivity).
  assert (T : forall w', no_descriptor_traffic w w' ->
                helpers_ready (Fd.type h) w -> helpers_ready (Fd.type h) w').
  { intros w' (_ & _ & E1 & E2 & E3). unfold helpers_ready.
    destruct (Fd.type h); rewrite ?E1, ?E2, ?E3; trivial. }
  split.
  - unfold skip, helpers_ready. destruct (Fd.type h); [trivial| |].
    + destruct (splice_pipe_to_null fuel h n w) as [r w'] eqn:E.
      cbn [fst snd]. intros ->.
      unfold splice_pipe_to_null in E.
      destruct (bind_Ok_inv _ _ _ _ _ E) as (dn & w1 & E1 & E2).
      apply thread_local_sets in E1; [|reflexivity].
      destruct (static_splice_pipe_to_null_loop fuel h dn n w1) as [K _];
        [rewrite E1; eexists; reflexivity|].
      rewrite E2 in K. exact K.
    + destruct (splice_to_null fuel h n w) as [r w'] eqn:E.
      cbn [fst snd]. intros ->.
      unfold splice_to_null in E.
      destruct (bind_Ok_inv _ _ _ _ _ E) as (dn & w1 & E1 & E2).
      destruct (bind_Ok_inv _ _ _ _ _ E2) as (p & w2 & E3 & E4).
      apply thread_local_sets in E1; [|reflexivity].
      assert (K1 : is_Some (tl_other_dev_null w2)).
      { assert (K : keeps (fun x => is_Some (tl_other_dev_null x))
                      (thread_local tl_other_p set_tl_other_p Pipe_new)
                      (fun _ => True)).
        { eapply keeps_thread_local; [intros a x H; exact H|].
          apply static_Pipe_new. }
        destruct (K w1) as [K' _]; [rewrite E1; eexists; reflexivity|].
        rewrite E3 in K'. exact K'. }
      apply thread_local_sets in E3; [|reflexivity].
      assert (K2 : is_Some (tl_other_dev_null w2) /\ is_Some (tl_other_p w2))
        by (split; [exact K1 | rewrite E3; eexists; reflexivity]).
      destruct (static_splice_to_null_body
                  (fun x => is_Some (tl_other_dev_null x) /\ is_Some (tl_other_p x))
                  h p dn n) with (w := w2) as [K _]; [|exact K2|].
      { apply static_sys_splice_other. }
      rewrite E4 in K. exact K.
  - intros Hr.
    assert (K : no_descriptor_traffic w (snd (skip fuel h n w))).
    { unfold skip. unfold helpers_ready in Hr.
      destruct (Fd.type h).
      - unfold lseek.
        assert (K : keeps (no_descriptor_traffic w)
                      (o <- sys_lseek (Fd.fd h) (to_off_t n) SEEK_CUR ;;
                       if negb (o =? -1) then ret tt
                       else e <- errno_now ;; throw (SeekError e))
                      (fun _ => True)).
        { eapply keeps_bind; [apply quiet_sys_lseek|]. intros o _.
          unfold errno_now. repeat frame_step. }
        apply (K w R).
      - unfold splice_pipe_to_null.
        assert (K : keeps (fun x => no_descriptor_traffic w x)
                      (dev_null <- thread_local tl_fifo_dev_null set_tl_fifo_dev_null
                                     (Fd_of_path fuel "/dev/null" O_WRONLY) ;;
                       splice_pipe_to_null_loop fuel h dev_null n)
                      (fun _ => True)).
        { eapply keeps_bind.
          - apply keeps_thread_local_ready.
            intros x (_ & _ & E1 & _). rewrite E1. exact Hr.
          - intros dn _. apply quiet_splice_pipe_to_null_loop. }
        apply (K w R).
      - unfold splice_to_null.
        destruct Hr as [Hr1 Hr2].
        assert (K : keeps (fun x => no_descriptor_traffic w x)
                      (dev_null <- thread_local tl_other_dev_null set_tl_other_dev_null
                                     (Fd_of_path fuel "/dev/null" O_WRONLY) ;;
                       p <- thread_local tl_other_p set_tl_other_p Pipe_new ;;
                       if 0 <? n then
                         rd <- sys_splice (Fd.fd h) (Pipe.write p) n ;;
                         if 0 <? rd then
                           written <- sys_splice (Pipe.read p) (Fd.fd dev_null) rd ;;
                           if negb (written =? -1) then ret tt
                           else e <- errno_now ;; throw (SpliceWriteFailed e)
                         else if rd =? 0 then throw (SplicePrematureZero n)
                         else e <- errno_now ;; throw (Splice1Failed e)
                       else ret tt)
                      (fun _ => True)).
        { eapply keeps_bind.
          - apply keeps_thread_local_ready.
            intros x (_ & _ & _ & E2 & _). rewrite E2. exact Hr1.
          - intros dn _. eapply keeps_bind.
            + apply keeps_thread_local_ready.
              intros x (_ & _ & _ & _ & E3). rewrite E3. exact Hr2.
            + intros p _. apply static_splice_to_null_body.
              intros d_in d_out len. apply quiet_sys_splice. }
        apply (K w R). }
    split; [exact K | exact (T _ K Hr)].
Qed.

Lemma skip_opens_its_helpers_once_witness :
  let w := world_with (fifo_end 10) [] in
  let h := Fd.mk 3 fifo false in
  let w1 := snd (skip 8 h 4 w) in
  helpers_ready fifo w1 /\ no_descriptor_traffic w1 (snd (skip 8 h 4 w1)).
Proof.
  intros w h w1.
  destruct (skip_opens_its_helpers_once 8 h 4 w) as [H1 _].
  assert (Hr : helpers_ready fifo w1) by (apply H1; vm_compute; reflexivity).
  destruct (skip_opens_its_helpers_once 8 h 4 w1) as [_ H2].
  split; [exact Hr | apply (H2 Hr)].
Defined.
